(** * Attendance by face matching: the process-attendance edge function

    A shallow embedding of the face-matching and roster-reconciliation
    procedure of the attendance application (the edge function that receives
    the descriptors of a group photo), together with the photo-status
    bookkeeping around it.

    JavaScript numbers are IEEE 754 binary64 values; they are modelled by
    Rocq's primitive floats, so [dist], the threshold test and [isFinite]
    compute exactly what the handler computes. *)

From Stdlib Require Import ZArith Floats Lia.
From stdpp Require Import base decidable option list strings gmap sorting.

Set Warnings "-inexact-float,-clear-no-such-hyp".
Open Scope float_scope.

(** ** Numbers *)

Module Number.

(** [Number.POSITIVE_INFINITY]. *)
Definition POSITIVE_INFINITY : float := infinity.

(** [isFinite(x)]: neither NaN nor one of the two infinities. *)
Definition isFinite (x : float) : bool :=
  (neg_infinity <? x) && (x <? infinity).

(** [x === x], which fails for NaN only. *)
Definition is_number (x : float) : Prop := (x =? x) = true.

End Number.

(** ** Identifiers

    [students.id], [students.user_id] and [photos.id] are UUID columns; a UUID
    is modelled by its 128-bit value.  As a JavaScript string a UUID is never
    empty (so it is truthy), never an integer-like key and never the name of a
    property of [Object.prototype], so an object keyed by UUIDs enumerates its
    entries in insertion order. *)

Abbreviation uuid := N (only parsing).

(** An embedding (a face descriptor): [number[]]. *)
Abbreviation embedding := (list float) (only parsing).

(** ** The distance of the handler

<<
    const dist = (a, b) => {
      let s = 0;
      const len = Math.min(a.length, b.length);
      for (let i = 0; i < len; i++) { const d = a[i] - b[i]; s += d * d; }
      return Math.sqrt(s);
    };
>>
    Reading past the end of an array gives [undefined], which arithmetic turns
    into NaN; the loop bound keeps every read in range. *)

Definition dist_body (a b : embedding) (s : float) (i : nat) : float :=
  let d := nth i a nan - nth i b nan in
  s + d * d.

Definition dist (a b : embedding) : float :=
  let len := Nat.min (length a) (length b) in
  sqrt (fold_left (dist_body a b) (seq 0 len) 0).

(** The Euclidean distance of the specification, on two sequences taken
    coordinate by coordinate. *)
Definition euclidean (a b : embedding) : float :=
  sqrt (fold_left (fun s '(x, y) => s + (x - y) * (x - y)) (zip a b) 0).

(** The distance contract of the specification: a length mismatch is an
    error, equal lengths give the Euclidean distance. *)
Inductive distance_error := LengthMismatch.

Definition distance_spec (a b : embedding) : distance_error + float :=
  if decide (length a = length b) then inr (euclidean a b)
  else inl LengthMismatch.

(** ** The matcher *)

Definition THRESHOLD : float := 0.6.

(** The lookup of registered embeddings by user: a JavaScript object, whose
    entries are enumerated in insertion order. *)
Abbreviation by_user := (list (uuid * list embedding)) (only parsing).

(** The state of the scan for one detected face: [bestUid] and [best]. *)
Definition scan_state : Type := option uuid * float.

(** [const d = dist(desc, e); if (d < best) { best = d; bestUid = uid; }] *)
Definition scan_emb (desc : embedding) (uid : uuid) (st : scan_state)
    (e : embedding) : scan_state :=
  let d := dist desc e in
  if d <? st.2 then (Some uid, d) else st.

(** [for (const e of embs) ...] *)
Definition scan_user (desc : embedding) (st : scan_state)
    (entry : uuid * list embedding) : scan_state :=
  fold_left (scan_emb desc entry.1) entry.2 st.

(** [for (const [uid, embs] of Object.entries(byUser)) ...], started from
    [bestUid = null] and [best = Number.POSITIVE_INFINITY]. *)
Definition best_match (byUser : by_user) (desc : embedding) : scan_state :=
  fold_left (scan_user desc) byUser (None, Number.POSITIVE_INFINITY).

(** The candidate embeddings of a lookup, each with its user, in the order the
    two nested loops visit them. *)
Definition candidates (byUser : by_user) : list (uuid * embedding) :=
  byUser ≫= fun entry => (fun e => (entry.1, e)) <$> entry.2.

(** What the scan has established once the candidates [seen] are behind it:
    none of them is below [best], and [best] is either still infinite, with no
    [bestUid], or the distance of a candidate of [bestUid]. *)
Definition scan_inv (desc : embedding) (seen : list (uuid * embedding))
    (st : scan_state) : Prop :=
  (∀ c, c ∈ seen → (dist desc c.2 <? st.2) = false) ∧
  match st.1 with
  | None => st.2 = infinity
  | Some uid =>
      (st.2 <? infinity) = true ∧ ∃ e, (uid, e) ∈ seen ∧ dist desc e = st.2
  end.

(** [isFaceMatch(similarity, threshold = 0.6)] of the client utilities;
    [None] is an omitted threshold. *)
Definition isFaceMatch (similarity : float) (threshold : option float) : bool :=
  similarity <? default 0.6 threshold.

(** An entry of [unknown_faces]: [{ index: i, bestDistance: ... }], where
    [None] is [null]. *)
Record unknown_face := UnknownFace {
  index : nat;
  bestDistance : option float
}.

(** The two branches of the test [bestUid && best < THRESHOLD]. *)
Inductive outcome :=
| Match (uid : uuid)
| Unknown (bestDistance : option float).

Definition decide_face (byUser : by_user) (desc : embedding) : outcome :=
  let '(bestUid, best) := best_match byUser desc in
  match bestUid with
  | Some uid =>
      if best <? THRESHOLD then Match uid
      else Unknown (if Number.isFinite best then Some best else None)
  | None => Unknown (if Number.isFinite best then Some best else None)
  end.

(** [presentSet.add(uid)]: a JavaScript [Set] keeps insertion order and holds
    each value once. *)
Definition set_add (uid : uuid) (s : list uuid) : list uuid :=
  if decide (uid ∈ s) then s else s ++ [uid].

(** The state of the loop over the descriptors: [presentSet] and
    [unknownFaces]. *)
Definition match_state : Type := list uuid * list unknown_face.

Definition match_face (byUser : by_user) (st : match_state) (i : nat)
    (desc : embedding) : match_state :=
  match decide_face byUser desc with
  | Match uid => (set_add uid st.1, st.2)
  | Unknown bd => (st.1, st.2 ++ [UnknownFace i bd])
  end.

(** [for (let i = 0; i < inputDescriptors.length; i++)], from index [i] on. *)
Fixpoint match_from (byUser : by_user) (i : nat) (descs : list embedding)
    (st : match_state) : match_state :=
  match descs with
  | [] => st
  | desc :: rest => match_from byUser (S i) rest (match_face byUser st i desc)
  end.

Definition match_all (byUser : by_user) (descs : list embedding) : match_state :=
  match_from byUser 0 descs ([], []).

(** ** Rows of the database *)

(** A row of [students], with the columns the handler reads. *)
Record student := Student {
  s_id : uuid;
  s_user_id : uuid;
  s_class : string;
  s_face_registered : bool
}.

(** A row of [faces_data].  [f_embedding] is the value the handler finds in
    [f.embedding]: [Some e] for an array, [None] for anything else. *)
Record face := Face {
  f_user_id : uuid;
  f_student_id : uuid;
  f_embedding : option embedding
}.

(** ** The lookup of embeddings by user

<<
    for (const f of (facesData || [])) {
      const uid = f.user_id; const emb = f.embedding;
      if (!byUser[uid]) byUser[uid] = [];
      if (Array.isArray(emb) && emb.length) byUser[uid].push(emb);
    }
>>
*)

(** [byUser[uid]], [None] when the key is absent. *)
Fixpoint by_user_get (byUser : by_user) (uid : uuid) : option (list embedding) :=
  match byUser with
  | [] => None
  | (k, embs) :: rest => if decide (k = uid) then Some embs else by_user_get rest uid
  end.

(** [byUser[uid].push(emb)] on a key that is present. *)
Definition by_user_push (byUser : by_user) (uid : uuid) (emb : embedding) : by_user :=
  (fun entry : uuid * list embedding =>
     if decide (entry.1 = uid) then (entry.1, entry.2 ++ [emb]) else entry) <$> byUser.

Definition by_user_add (byUser : by_user) (f : face) : by_user :=
  let uid := f_user_id f in
  let byUser1 :=
    match by_user_get byUser uid with
    | Some _ => byUser
    | None => byUser ++ [(uid, [])]
    end in
  match f_embedding f with
  | Some emb => if decide (length emb = 0%nat) then byUser1 else by_user_push byUser1 uid emb
  | None => byUser1
  end.

Definition build_by_user (facesData : list face) : by_user :=
  fold_left by_user_add facesData [].

(** ** Reconciliation with the roster *)

(** The three collections written to [attendance_records]. *)
Record attendance := Attendance {
  present_students : list uuid;
  absent_students : list uuid;
  unknown_faces : list unknown_face
}.

(**
<<
    const presentStudents = Array.from(presentSet);
    const allStudentIds = students?.map(s => s.user_id) || [];
    const absentStudents = allStudentIds.filter(id => !presentSet.has(id));
>>
*)
Definition reconcile (students : list student) (facesData : list face)
    (inputDescriptors : list embedding) : attendance :=
  let byUser := build_by_user facesData in
  let '(presentSet, unknownFaces) := match_all byUser inputDescriptors in
  let allStudentIds := s_user_id <$> students in
  {| present_students := presentSet;
     absent_students := filter (fun id => id ∉ presentSet) allStudentIds;
     unknown_faces := unknownFaces |}.

(** ** The database and the upstream collaborators *)

(** [photos.analysis_status]: the four values of the column's CHECK. *)
Inductive analysis_status := pending | processing | completed | failed.

#[global] Instance analysis_status_eq_dec : EqDecision analysis_status.
Proof. solve_decision. Defined.

(** A row of [photos], with the columns the handler writes. *)
Record photo := Photo {
  p_analysis_status : analysis_status;
  p_faces_detected : nat
}.

(** A row of [attendance_records]. *)
Record attendance_record := AttendanceRecord {
  r_photo_id : uuid;
  r_class_id : string;
  r_attendance : attendance
}.

(** The tables the handler touches; [photos] is keyed by its primary key. *)
Record database := Database {
  tbl_students : list student;
  tbl_faces_data : list face;
  tbl_photos : gmap N photo;
  tbl_attendance_records : list attendance_record
}.

(** What the handler can throw inside its [try] block. *)
Inductive error :=
| JsonError          (* [await req.json()] rejected *)
| StudentsError      (* [studentsError] *)
| FacesError         (* [facesError] *)
| AttendanceError.   (* [attendanceError] *)

(** The upstream failures of one run: which of the three checked database
    calls comes back with an [error]. *)
Record upstream := Upstream {
  students_fail : bool;
  faces_fail : bool;
  insert_fail : bool
}.

Definition healthy : upstream := Upstream false false false.

(** The body of the request, [{ photoId, classId, descriptors }];
    [b_descriptors] is [None] when the field is not an array.  An array is
    taken at the type the handler declares for it, [number[][]]: a request
    with an entry that is not an array of numbers is outside this model (on a
    [null] entry, with a candidate to compare it with, [dist] would throw and
    the handler answer 500). *)
Record body := Body {
  b_photoId : uuid;
  b_classId : string;
  b_descriptors : option (list embedding)
}.

(** A request: its method is OPTIONS or not, and its body parses or not. *)
Record request := Request {
  is_options : bool;
  json : option body
}.

Inductive response :=
| Preflight                                        (* [new Response(null, ...)] *)
| Success (presentCount absentCount : nat)         (* status 200 *)
| Failure (e : error).                             (* status 500 *)

(** The [try] block runs over the database and either completes or throws; what
    it wrote before a throw stays written. *)
Definition handler (A : Type) : Type := database → (error + A) * database.

#[global] Instance handler_ret : MRet handler :=
  fun A (x : A) db => (inr x, db).

#[global] Instance handler_bind : MBind handler :=
  fun A B (k : A → handler B) (m : handler A) db =>
    match m db with
    | (inl e, db1) => (inl e, db1)
    | (inr x, db1) => k x db1
    end.

Definition throw {A : Type} (e : error) : handler A :=
  fun db => (inl e, db).

(** [await req.json()]. *)
Definition req_json (req : request) : handler body :=
  match json req with
  | Some b => mret b
  | None => throw JsonError
  end.

(** [supabase.from('photos').update(...).eq('id', photoId)]; the result of the
    call is not inspected by the handler. *)
Definition update_photo (photoId : uuid) (f : photo → photo) : handler unit :=
  fun db =>
    (inr tt,
     Database (tbl_students db) (tbl_faces_data db)
              (alter f photoId (tbl_photos db)) (tbl_attendance_records db)).

(** [from('students').select(...).eq('class', classId).eq('face_registered', true)]:
    the roster of the class. *)
Definition class_roster (db : database) (classId : string) : list student :=
  filter (fun s => s_class s = classId ∧ s_face_registered s = true) (tbl_students db).

Definition select_students (up : upstream) (classId : string)
    : handler (error + list student) :=
  fun db =>
    if students_fail up then (inr (inl StudentsError), db)
    else (inr (inr (class_roster db classId)), db).

(** [from('faces_data').select('*').in('student_id', ids)] *)
Definition faces_of (db : database) (ids : list uuid) : list face :=
  filter (fun f => f_student_id f ∈ ids) (tbl_faces_data db).

Definition select_faces (up : upstream) (ids : list uuid)
    : handler (error + list face) :=
  fun db =>
    if faces_fail up then (inr (inl FacesError), db)
    else (inr (inr (faces_of db ids)), db).

(** [from('attendance_records').insert(...)] *)
Definition insert_attendance (up : upstream) (r : attendance_record)
    : handler (option error) :=
  fun db =>
    if insert_fail up then (inr (Some AttendanceError), db)
    else (inr None,
          Database (tbl_students db) (tbl_faces_data db) (tbl_photos db)
                   (tbl_attendance_records db ++ [r])).

(** ** The handler *)

Definition set_processing (p : photo) : photo :=
  Photo processing (p_faces_detected p).

Definition set_completed (n : nat) (_ : photo) : photo :=
  Photo completed n.

(** The [try] block of the handler. *)
Definition process_attendance (up : upstream) (req : request) : handler response :=
  b ← req_json req;
  update_photo (b_photoId b) set_processing;;
  studentsRes ← select_students up (b_classId b);
  match studentsRes with
  | inl studentsError => throw studentsError
  | inr students =>
      facesRes ← select_faces up (s_id <$> students);
      match facesRes with
      | inl facesError => throw facesError
      | inr facesData =>
          let inputDescriptors := default [] (b_descriptors b) in
          let att := reconcile students facesData inputDescriptors in
          attendanceError ← insert_attendance up
            (AttendanceRecord (b_photoId b) (b_classId b) att);
          match attendanceError with
          | Some e => throw e
          | None =>
              update_photo (b_photoId b) (set_completed (length inputDescriptors));;
              mret (Success (length (present_students att))
                            (length (absent_students att)))
          end
      end
  end.

(** [serve(async (req) => ...)]: the OPTIONS shortcut, then the [try] block
    with its [catch], which answers 500 and writes nothing. *)
Definition serve (up : upstream) (req : request) (db : database)
    : response * database :=
  if is_options req then (Preflight, db)
  else
    match process_attendance up req db with
    | (inr resp, db1) => (resp, db1)
    | (inl e, db1) => (Failure e, db1)
    end.

(** The status of a photo in a database. *)
Definition status_of (db : database) (photoId : uuid) : option analysis_status :=
  p_analysis_status <$> tbl_photos db !! photoId.

(** ** The simulated variant

    The draft of the function marks students present at random:
<<
    const presentStudents = students
      ?.filter(() => Math.random() > 0.5).map(s => s.user_id) || [];
    const absentStudents = allStudentIds.filter(id => !presentStudents.includes(id));
>>
    [random n] is the [n]-th value drawn from [Math.random]. *)

Module Simulation.

Fixpoint filter_random (random : nat → float) (n : nat) (students : list student)
    : list student :=
  match students with
  | [] => []
  | s :: rest =>
      if 0.5 <? random n then s :: filter_random random (S n) rest
      else filter_random random (S n) rest
  end.

Definition simulate (random : nat → float) (students : list student) : attendance :=
  let presentStudents := s_user_id <$> filter_random random 0 students in
  let allStudentIds := s_user_id <$> students in
  {| present_students := presentStudents;
     absent_students := filter (fun id => id ∉ presentStudents) allStudentIds;
     unknown_faces := [] |}.

End Simulation.

(** ** Sample data *)

Definition S1 : student := Student 1 11 "CSE-A" true.
Definition S2 : student := Student 2 12 "CSE-A" true.

Definition S3 : student := Student 3 13 "CSE-B" true.

Definition scenario_faces : list face :=
  [Face 11 1 (Some [1; 0; 0]); Face 12 2 (Some [0; 1; 0])].

(** A class with its two students registered, and one photo just uploaded. *)
Definition scenario_db : database :=
  Database [S1; S2; S3] scenario_faces {[ 7%N := Photo pending 0 ]} [].

(** A row of [faces_data] whose [student_id] is a student of the class while
    its [user_id] is a user of another class: the foreign keys of the table
    and its insert policy ([auth.uid() = user_id]) admit it. *)
Definition stray_face : face := Face 13 1 (Some [1; 0; 0]).

Definition stray_db : database :=
  Database [S1; S3] [stray_face] {[ 7%N := Photo pending 0 ]} [].

(** A registered row whose embedding has one coordinate only. *)
Definition short_face : face := Face 11 1 (Some [1]).

Definition short_db : database :=
  Database [S1; S2] [short_face; Face 12 2 (Some [0; 1; 0])]
    {[ 7%N := Photo pending 0 ]} [].

(** A run of the handler on [db], and the database it leaves. *)
Definition after (up : upstream) (req : request) (db : database) : database :=
  (serve up req db).2.

Definition post (descriptors : list embedding) : request :=
  Request false (Some (Body 7 "CSE-A" (Some descriptors))).

(** ** More about the matcher *)

(** The face is a match for somebody. *)
Definition is_match (o : outcome) : bool :=
  match o with Match _ => true | Unknown _ => false end.

(** What the scan keeps besides [scan_inv]: the candidate that set [best] is
    the first one at that distance, every candidate visited before it being
    strictly farther (or at no distance at all, NaN). *)
Definition first_best (desc : embedding) (seen : list (uuid * embedding))
    (st : scan_state) : Prop :=
  match st.1 with
  | None => True
  | Some uid =>
      ∃ pre e post, seen = pre ++ (uid, e) :: post
        ∧ dist desc e = st.2
        ∧ ∀ c, c ∈ pre → (dist desc c.2 <=? st.2) = false
  end.

(** The embeddings pushed for [uid]: the non-empty arrays of its rows, in the
    order of the rows. *)
Definition embeddings_of (facesData : list face) (uid : uuid) : list embedding :=
  omap (fun f => match f_embedding f with
                 | Some e => if decide (length e = 0%nat) then None else Some e
                 | None => None
                 end)
       (filter (fun f => f_user_id f = uid) facesData).

(** ** The handler of the simulated variant

    The same handler around the random marking: the request carries no
    descriptors, [unknown_faces] is always empty and [faces_detected] is the
    number of students marked present. *)

Module Simulated.

Definition process_attendance (random : nat → float) (up : upstream)
    (req : request) : handler response :=
  b ← req_json req;
  update_photo (b_photoId b) set_processing;;
  studentsRes ← select_students up (b_classId b);
  match studentsRes with
  | inl studentsError => throw studentsError
  | inr students =>
      facesRes ← select_faces up (s_id <$> students);
      match facesRes with
      | inl facesError => throw facesError
      | inr facesData =>
          let att := Simulation.simulate random students in
          attendanceError ← insert_attendance up
            (AttendanceRecord (b_photoId b) (b_classId b) att);
          match attendanceError with
          | Some e => throw e
          | None =>
              update_photo (b_photoId b)
                (set_completed (length (present_students att)));;
              mret (Success (length (present_students att))
                            (length (absent_students att)))
          end
      end
  end.

Definition serve (random : nat → float) (up : upstream) (req : request)
    (db : database) : response * database :=
  if is_options req then (Preflight, db)
  else
    match process_attendance random up req db with
    | (inr resp, db1) => (resp, db1)
    | (inl e, db1) => (Failure e, db1)
    end.

End Simulated.

(** ** Loading the detection models (the client utilities)

<<
    let modelsLoaded = false;
    export async function loadFaceDetectionModels() {
      if (modelsLoaded) return;
      try { await Promise.all([...three loadFromUri...]); modelsLoaded = true; }
      catch (error) { throw new Error('Failed to load face detection models'); }
    }
>>
    The state is the flag [modelsLoaded]; [fetches] counts how many times the
    three networks were requested.  Whether the request succeeds is given
    with each call. *)

Module FaceDetection.

Record loader := Loader {
  modelsLoaded : bool;
  fetches : nat
}.

Inductive load_error := LoadFailed.

Definition loadFaceDetectionModels (net_ok : bool) (st : loader)
    : (load_error + unit) * loader :=
  if modelsLoaded st then (inr tt, st)
  else if net_ok then (inr tt, Loader true (S (fetches st)))
  else (inl LoadFailed, Loader false (S (fetches st))).

(** [detectFaceAndGetDescriptor]: [detection?.descriptor || null], where
    [detection] is what the detector finds in the image. *)
Definition detectFaceAndGetDescriptor (net_ok : bool)
    (detection : option embedding) (st : loader)
    : (load_error + option embedding) * loader :=
  if modelsLoaded st then (inr detection, st)
  else
    match loadFaceDetectionModels net_ok st with
    | (inl e, st1) => (inl e, st1)
    | (inr _, st1) => (inr detection, st1)
    end.

(** [detectAllFacesAndGetDescriptors]: [detections.map(d => d.descriptor)]. *)
Definition detectAllFacesAndGetDescriptors (net_ok : bool)
    (detections : list embedding) (st : loader)
    : (load_error + list embedding) * loader :=
  if modelsLoaded st then (inr detections, st)
  else
    match loadFaceDetectionModels net_ok st with
    | (inl e, st1) => (inl e, st1)
    | (inr _, st1) => (inr detections, st1)
    end.

(** One call of the three, with the outcome the network would have. *)
Inductive call :=
| Load (net_ok : bool)
| DetectOne (net_ok : bool) (detection : option embedding)
| DetectAll (net_ok : bool) (detections : list embedding).

(** Whether a call returned, rather than threw. *)
Definition returned {E A : Type} (r : E + A) : bool :=
  match r with inr _ => true | inl _ => false end.

(** A call: whether it returned, and the state it left. *)
Definition run_call (c : call) (st : loader) : bool * loader :=
  match c with
  | Load net_ok =>
      let r := loadFaceDetectionModels net_ok st in (returned r.1, r.2)
  | DetectOne net_ok d =>
      let r := detectFaceAndGetDescriptor net_ok d st in (returned r.1, r.2)
  | DetectAll net_ok ds =>
      let r := detectAllFacesAndGetDescriptors net_ok ds st in (returned r.1, r.2)
  end.

Definition run_calls (calls : list call) (st : loader) : loader :=
  fold_left (fun st c => (run_call c st).2) calls st.

End FaceDetection.

(** ** The attendance history page *)

Module History.

Inductive badge := Present | Absent | NotApplicable.

(** [getStatusForStudent(record)], for the signed-in user [userId]. *)
Definition getStatusForStudent (userId : uuid) (record : attendance) : badge :=
  if decide (userId ∈ present_students record) then Present
  else if decide (userId ∈ absent_students record) then Absent
  else NotApplicable.

(** The status column of the student's CSV export:
    [record.present_students?.includes(userId) ? "Present" : "Absent"]. *)
Definition csv_status (userId : uuid) (record : attendance) : string :=
  if decide (userId ∈ present_students record) then "Present" else "Absent".

(** The filter of the student's query:
    [or(present_students.cs.{uid},absent_students.cs.{uid})]. *)
Definition visible_to (uid : uuid) (record : attendance) : Prop :=
  uid ∈ present_students record ∨ uid ∈ absent_students record.

End History.

(** ** Descriptors on the wire

    The page sends the descriptors in a JSON body.  [JSON.stringify] writes a
    finite number so that [JSON.parse] reads the same number back, except
    that [-0] is written [0]; it writes NaN and the two infinities as [null],
    and the [null] found in their place counts as [0] in the subtraction of
    [dist]. *)

Definition json_number (x : float) : float :=
  if Number.isFinite x then (if x =? 0 then 0 else x) else 0.

Definition json_descriptor (d : embedding) : embedding := json_number <$> d.

(** ** Taking attendance (the client page)

    [handleSubmit] of the page that uploads the group photo, calls the edge
    function and waits for the result.  What the outside answers is given in
    a [world]; while the page waits nobody else writes to the database. *)

Module TakeAttendance.

(** What [handleSubmit] can throw. *)
Inductive client_error :=
| UploadError
| PhotoError
| ImageError
| ModelsError
| ProcessError (e : error).     (* 'Failed to process attendance: ...' *)

Inductive toast :=
| PleaseCapture                 (* "Please capture or upload a photo" *)
| PleaseEnterClass              (* "Please enter a class ID" *)
| OnlyAdmins                    (* "Only admins can take attendance" *)
| ProcessingFailed              (* 'Processing failed. Please try again.' *)
| AttendanceReady (present absent unknown : nat)
| NoRecordFound                 (* 'No attendance record found, but ...' *)
| Thrown (e : client_error).    (* [error.message || ...] of the [catch] *)

Inductive route := AuthPage | DashboardPage | HistoryPage.

Inductive event :=
| Toast (t : toast)
| Navigate (r : route)
| SetUploading (b : bool).

Record world := World {
  auth_user : option uuid;              (* [supabase.auth.getUser()] *)
  user_role : option string;            (* [roleData?.role] *)
  upload_fails : bool;                  (* [uploadError] *)
  insert_fails : bool;                  (* [photoError] *)
  new_photo_id : uuid;                  (* the id the database gives the row *)
  image_loads : bool;                   (* [blobToImageElement] resolves *)
  detected : option (list embedding);   (* the descriptors, [None]: models fail *)
  edge : upstream;                      (* the failures inside the edge function *)
  polls : nat                           (* the polls that fit before the deadline *)
}.

(** The page state read by [handleSubmit]: [capturedPhoto] is set or not. *)
Record page := Page {
  capturedPhoto : bool;
  classId : string
}.

(** [status === 'completed' || status === 'failed'] *)
Definition terminal (s : analysis_status) : bool :=
  bool_decide (s = completed ∨ s = failed).

(**
<<
    let status = 'pending';
    while (Date.now() < waitUntil) {
      ...status = photoRow?.analysis_status ?? 'pending';
      if (status === 'completed' || status === 'failed') break;
      await new Promise((r) => setTimeout(r, 1500));
    }
>>
*)
Fixpoint wait (polls : nat) (db : database) (photoId : uuid)
    (status : analysis_status) : analysis_status :=
  match polls with
  | O => status
  | S n =>
      let status := default pending (status_of db photoId) in
      if terminal status then status else wait n db photoId status
  end.

(** [from('photos').insert({... analysis_status: "pending"}).select().single()] *)
Definition insert_photo (w : world) (db : database) : option database :=
  if insert_fails w then None
  else
    match tbl_photos db !! new_photo_id w with
    | Some _ => None                    (* the primary key is taken *)
    | None =>
        Some (Database (tbl_students db) (tbl_faces_data db)
                (<[new_photo_id w := Photo pending 0]> (tbl_photos db))
                (tbl_attendance_records db))
    end.

(** [from('attendance_records').select('*').eq('photo_id', id).limit(1)] then
    [recs?.[0]]. *)
Definition first_record (db : database) (photoId : uuid) : option attendance_record :=
  head (filter (fun r => r_photo_id r = photoId) (tbl_attendance_records db)).

(** The [try] block after the role check; its result is the events up to a
    [return], or what was thrown. *)
Definition submit_admin (w : world) (st : page) (db : database)
    : (client_error + list event) * database :=
  if upload_fails w then (inl UploadError, db)
  else
    match insert_photo w db with
    | None => (inl PhotoError, db)
    | Some db1 =>
        if negb (image_loads w) then (inl ImageError, db1)
        else
          match detected w with
          | None => (inl ModelsError, db1)
          | Some descs =>
              let body :=
                Body (new_photo_id w) (classId st)
                  (Some (json_descriptor <$> descs)) in
              match serve (edge w) (Request false (Some body)) db1 with
              | (Failure e, db2) => (inl (ProcessError e), db2)
              | (_, db2) =>
                  let status := wait (polls w) db2 (new_photo_id w) pending in
                  if decide (status = failed) then
                    (inr [Toast ProcessingFailed], db2)
                  else
                    match first_record db2 (new_photo_id w) with
                    | Some rec =>
                        (inr [Toast (AttendanceReady
                                       (length (present_students (r_attendance rec)))
                                       (length (absent_students (r_attendance rec)))
                                       (length (unknown_faces (r_attendance rec))));
                              Navigate HistoryPage], db2)
                    | None => (inr [Toast NoRecordFound; Navigate HistoryPage], db2)
                    end
              end
          end
    end.

Section Submit.

(** [String.prototype.trim]. *)
Variable trim : string → string.

Definition handleSubmit (w : world) (st : page) (db : database)
    : list event * database :=
  if negb (capturedPhoto st) then ([Toast PleaseCapture], db)
  else if decide (trim (classId st) = EmptyString) then ([Toast PleaseEnterClass], db)
  else
    let '(events, db1) :=
      match auth_user w with
      | None => ([Navigate AuthPage], db)
      | Some _ =>
          if decide (user_role w = Some "admin") then
            match submit_admin w st db with
            | (inr events, db1) => (events, db1)
            | (inl e, db1) => ([Toast (Thrown e)], db1)
            end
          else ([Toast OnlyAdmins; Navigate DashboardPage], db)
      end in
    (SetUploading true :: events ++ [SetUploading false], db1).

End Submit.

End TakeAttendance.

(** * Properties *)

Example dist_same : dist [1; 0; 0] [1; 0; 0] = 0.
Proof. reflexivity. Qed.

Example dist_far : dist [0; 0; 1] [1; 0; 0] = 1.4142135623730951.
Proof. reflexivity. Qed.

Example dist_truncates : dist [1; 0; 0] [1] = 0.
Proof. reflexivity. Qed.

Example json_number_cases :
  json_number nan = 0 ∧ json_number infinity = 0 ∧ json_number neg_infinity = 0
  ∧ json_number (-0) = 0 ∧ json_number 0.25 = 0.25 ∧ json_number (-3) = -3.
Proof. repeat split; reflexivity. Qed.

Example scenario_A :
  reconcile [S1; S2] scenario_faces [[1; 0; 0]] = Attendance [11%N] [12%N] [].
Proof. vm_compute. reflexivity. Qed.

Example scenario_C :
  reconcile [S1; S2] scenario_faces [[0; 0; 1]]
  = Attendance [] [11%N; 12%N] [UnknownFace 0 (Some 1.4142135623730951)].
Proof. vm_compute. reflexivity. Qed.

Example scenario_D :
  reconcile [] [] [[1; 0; 0]] = Attendance [] [] [UnknownFace 0 None].
Proof. vm_compute. reflexivity. Qed.

(** ** The order of binary64 numbers

    [<] on JavaScript numbers is the IEEE comparison: false as soon as one side
    is NaN.  The facts below are read off the specification of the primitive
    comparison. *)

Section FloatOrder.

Local Ltac by_compare :=
  unfold SFltb, SFeqb, SFcompare;
  repeat match goal with s : bool |- _ => destruct s end;
  try (simpl; congruence);
  rewrite ?Pos.compare_cont_spec; simpl Pos.switch_Eq;
  repeat match goal with
    | |- context [Z.compare ?x ?y] =>
        destruct (Z.compare_spec x y); try (simpl; congruence); try lia; subst
    | |- context [Pos.compare ?x ?y] =>
        destruct (Pos.compare_spec x y); try (simpl; congruence); try lia; subst
    end.

Lemma SFltb_trans (a b c : spec_float) :
  SFltb a b = true → SFltb b c = true → SFltb a c = true.
Proof.
  destruct a as [sa|sa| |sa ma ea], b as [sb|sb| |sb mb eb],
    c as [sc|sc| |sc mc ec]; by_compare.
Qed.

Lemma SFltb_below (d b t : spec_float) :
  SFltb d b = false → SFltb d t = true → b ≠ S754_nan → SFltb b t = true.
Proof.
  destruct d as [sa|sa| |sa ma ea], b as [sb|sb| |sb mb eb],
    t as [sc|sc| |sc mc ec]; by_compare.
Qed.

Lemma SFeqb_refl_nan (a : spec_float) : SFeqb a a = true ↔ a ≠ S754_nan.
Proof.
  destruct a as [sa|sa| |sa ma ea]; unfold SFeqb, SFcompare.
  - destruct sa; simpl; split; congruence.
  - destruct sa; simpl; split; congruence.
  - split; congruence.
  - rewrite Pos.compare_cont_spec, Z.compare_refl, Pos.compare_refl.
    destruct sa; simpl; split; congruence.
Qed.

Lemma SFltb_not_nan (a b : spec_float) : SFltb a b = true → a ≠ S754_nan.
Proof. destruct a; [congruence..|discriminate|congruence]. Qed.

Lemma is_number_spec (x : float) : Number.is_number x ↔ Prim2SF x ≠ S754_nan.
Proof. unfold Number.is_number. rewrite FloatAxioms.eqb_spec. apply SFeqb_refl_nan. Qed.

Lemma ltb_trans (x y z : float) :
  (x <? y) = true → (y <? z) = true → (x <? z) = true.
Proof. rewrite !ltb_spec. apply SFltb_trans. Qed.

Lemma ltb_below (d b t : float) :
  (d <? b) = false → (d <? t) = true → Number.is_number b → (b <? t) = true.
Proof. rewrite is_number_spec, !ltb_spec. apply SFltb_below. Qed.

Lemma ltb_is_number (x y : float) : (x <? y) = true → Number.is_number x.
Proof. rewrite is_number_spec, ltb_spec. apply SFltb_not_nan. Qed.

Lemma ltb_irrefl (x : float) : (x <? x) = false.
Proof.
  rewrite ltb_spec.
  destruct (Prim2SF x) as [sa|sa| |sa ma ea]; by_compare.
Qed.

(** [Math.sqrt] never returns a negative number. *)
Lemma sqrt_not_negative (x : float) : (sqrt x <? 0) = false.
Proof.
  rewrite ltb_spec, sqrt_spec.
  change (Prim2SF 0) with (S754_zero false).
  unfold SF64sqrt, SFsqrt.
  destruct (Prim2SF x) as [s|s| |s m e]; try destruct s; try reflexivity.
  destruct (SFsqrt_core_binary prec emax (Z.pos m) e) as [[mz ez] lz].
  unfold binary_round_aux.
  destruct (shr_fexp prec emax mz ez lz) as [mrs1 e1].
  destruct (shr_fexp prec emax _ e1 loc_Exact) as [mrs2 e2].
  destruct (shr_m mrs2); try reflexivity.
  destruct (Z.leb e2 (emax - prec)); reflexivity.
Qed.

End FloatOrder.

(** ** The scan for the best candidate *)

Section Scan.

Variable desc : embedding.

Lemma elem_of_candidates (byUser : by_user) (uid : uuid) (e : embedding) :
  (uid, e) ∈ candidates byUser ↔ ∃ embs, (uid, embs) ∈ byUser ∧ e ∈ embs.
Proof.
  unfold candidates. rewrite list_elem_of_bind. split.
  - intros [[k embs] [Hin Hentry]]. simpl in Hin.
    apply list_elem_of_fmap in Hin as [e' [Heq He']].
    inversion Heq; subst. eauto.
  - intros [embs [Hentry He]]. exists (uid, embs). split; [|done].
    simpl. apply list_elem_of_fmap. eauto.
Qed.

Lemma best_match_candidates (byUser : by_user) :
  best_match byUser desc
  = fold_left (fun st c => scan_emb desc c.1 st c.2) (candidates byUser)
      (None, Number.POSITIVE_INFINITY).
Proof.
  unfold best_match, candidates.
  generalize (@None N, Number.POSITIVE_INFINITY).
  induction byUser as [|[uid embs] rest IH]; intros st; [done|].
  simpl. rewrite fold_left_app, IH. f_equal.
  unfold scan_user. simpl. clear.
  revert st. induction embs as [|e embs IH]; intros st; [done|].
  simpl. apply IH.
Qed.

Lemma scan_emb_inv (seen : list (uuid * embedding)) (st : scan_state)
    (uid : uuid) (e : embedding) :
  scan_inv desc seen st →
  scan_inv desc (seen ++ [(uid, e)]) (scan_emb desc uid st e).
Proof.
  intros [Hlow Hbest]. unfold scan_emb.
  destruct (dist desc e <? st.2) eqn:Hlt; split; simpl.
  - intros c [Hc | Hc%list_elem_of_singleton]%elem_of_app.
    + destruct (dist desc c.2 <? dist desc e) eqn:Hc'; [|done].
      rewrite <- (Hlow c Hc). symmetry. by eapply ltb_trans.
    + subst c. apply ltb_irrefl.
  - split.
    + destruct st.1.
      * destruct Hbest as [Hinf _]. by eapply ltb_trans.
      * by rewrite <- Hbest.
    + exists e. split; [|done]. apply elem_of_app. right. by left.
  - intros c [Hc | Hc%list_elem_of_singleton]%elem_of_app; [by apply Hlow|].
    by subst c.
  - destruct st.1; [|done].
    destruct Hbest as [Hinf [e' [He' Hd]]]. split; [done|].
    exists e'. split; [|done]. apply elem_of_app. by left.
Qed.

Lemma scan_fold_inv (cs seen : list (uuid * embedding)) (st : scan_state) :
  scan_inv desc seen st →
  scan_inv desc (seen ++ cs)
    (fold_left (fun st c => scan_emb desc c.1 st c.2) cs st).
Proof.
  revert seen st. induction cs as [|[uid e] cs IH]; intros seen st Hinv.
  - by rewrite app_nil_r.
  - simpl. rewrite (cons_middle _ seen cs), app_assoc.
    apply IH. by apply scan_emb_inv.
Qed.

Lemma best_match_inv (byUser : by_user) :
  scan_inv desc (candidates byUser) (best_match byUser desc).
Proof.
  rewrite best_match_candidates.
  apply (scan_fold_inv (candidates byUser) []).
  split; [|done]. intros c Hc. by apply elem_of_nil in Hc.
Qed.

(** Below the threshold there is always a best user: the guard [bestUid &&]
    of the test never decides. *)
Lemma best_below_threshold (byUser : by_user) :
  ((best_match byUser desc).2 <? THRESHOLD) = true →
  ∃ uid, (best_match byUser desc).1 = Some uid.
Proof.
  intros Hlt. destruct (best_match_inv byUser) as [_ Hbest].
  destruct (best_match byUser desc).1; [eauto|].
  rewrite Hbest in Hlt. discriminate Hlt.
Qed.

End Scan.

(** ** The lookup of embeddings by user *)

Section ByUser.

Implicit Types (byUser : list (N * list (list float))) (f : face)
  (c : N * list float).

Lemma by_user_get_key byUser (uid : N) :
  is_Some (by_user_get byUser uid) ↔ uid ∈ byUser.*1.
Proof.
  induction byUser as [|[k embs] rest IH]; simpl.
  - rewrite elem_of_nil. split; [intros [? ?]; discriminate | tauto].
  - rewrite elem_of_cons. case_decide; subst.
    + split; eauto.
    + rewrite IH. naive_solver.
Qed.

Lemma candidates_app byUser1 byUser2 :
  candidates (byUser1 ++ byUser2) = candidates byUser1 ++ candidates byUser2.
Proof. apply bind_app. Qed.

Lemma candidates_push byUser (uid : N) (e : list float) c :
  c ∈ candidates (by_user_push byUser uid e)
  ↔ c ∈ candidates byUser ∨ (uid ∈ byUser.*1 ∧ c = (uid, e)).
Proof.
  induction byUser as [|[k embs] rest IH].
  - split; [intros H; by apply elem_of_nil in H
           |intros [H|[H _]]; by apply elem_of_nil in H].
  - change (candidates (by_user_push ((k, embs) :: rest) uid e))
      with (candidates ([if decide (k = uid) then (k, embs ++ [e]) else (k, embs)]
                        ++ by_user_push rest uid e)).
    change ((k, embs) :: rest) with ([(k, embs)] ++ rest).
    rewrite !candidates_app, !elem_of_app, IH, fmap_app, elem_of_app.
    unfold candidates. simpl. rewrite !app_nil_r, list_elem_of_singleton.
    case_decide as Hk; simpl.
    + subst k. rewrite fmap_app, elem_of_app. simpl.
      rewrite list_elem_of_singleton. intuition.
    + intuition congruence.
Qed.

Lemma candidates_add byUser f c :
  c ∈ candidates (by_user_add byUser f)
  ↔ c ∈ candidates byUser
    ∨ ∃ e, f_embedding f = Some e ∧ e ≠ [] ∧ c = (f_user_id f, e).
Proof.
  unfold by_user_add.
  set (byUser1 := match by_user_get byUser (f_user_id f) with
                  | Some _ => byUser
                  | None => byUser ++ [(f_user_id f, [])]
                  end).
  assert (Hcand : candidates byUser1 = candidates byUser).
  { subst byUser1. destruct (by_user_get byUser (f_user_id f)); [done|].
    rewrite candidates_app. unfold candidates at 2. simpl. by rewrite app_nil_r. }
  assert (Hkey : f_user_id f ∈ byUser1.*1).
  { subst byUser1. destruct (by_user_get byUser (f_user_id f)) eqn:Hget.
    - apply by_user_get_key. by rewrite Hget.
    - rewrite fmap_app, elem_of_app. right. simpl. by left. }
  destruct (f_embedding f) as [emb|].
  - case_decide as Hlen.
    + rewrite Hcand. apply length_zero_iff_nil in Hlen. naive_solver.
    + rewrite candidates_push, Hcand. split.
      * intros [?|[_ ->]]; [by left|]. right. exists emb.
        split_and!; [done| |done]. intros ->. by apply Hlen.
      * intros [?|[e [[= <-] [_ ->]]]]; [by left|]. by right.
  - rewrite Hcand. naive_solver.
Qed.

Lemma candidates_fold (facesData : list face) byUser c :
  c ∈ candidates (fold_left by_user_add facesData byUser)
  ↔ c ∈ candidates byUser
    ∨ ∃ f e, f ∈ facesData ∧ f_embedding f = Some e ∧ e ≠ []
             ∧ c = (f_user_id f, e).
Proof.
  revert byUser. induction facesData as [|f rest IH]; intros byUser; simpl.
  - split; [by left|]. intros [?|(f & e & Hf & _)]; [done|].
    by apply elem_of_nil in Hf.
  - rewrite IH, candidates_add. split.
    + intros [[?|(e & ? & ? & ?)]|(f' & e & ? & ?)]; [by left|right..].
      * exists f, e. split; [by left|done].
      * exists f', e. split; [by right|done].
    + intros [?|(f' & e & [->|?]%elem_of_cons & ?)].
      * by left; left.
      * left; right. by exists e.
      * right. by exists f', e.
Qed.

(** The candidates of the lookup are exactly the non-empty array embeddings
    of the rows, each under the [user_id] of its row. *)
Lemma candidates_build (facesData : list face) c :
  c ∈ candidates (build_by_user facesData)
  ↔ ∃ f e, f ∈ facesData ∧ f_embedding f = Some e ∧ e ≠ []
           ∧ c = (f_user_id f, e).
Proof.
  unfold build_by_user. rewrite candidates_fold.
  unfold candidates at 1. simpl. rewrite elem_of_nil. tauto.
Qed.

End ByUser.

(** ** The loop over the detected faces *)

Section MatchLoop.

Variable byUser : list (N * list (list float)).

Lemma elem_of_set_add (uid x : N) (s : list N) :
  x ∈ set_add uid s ↔ x ∈ s ∨ x = uid.
Proof.
  unfold set_add. case_decide.
  - split; [by left|]. by intros [?| ->].
  - rewrite elem_of_app, list_elem_of_singleton. tauto.
Qed.

Lemma NoDup_set_add (uid : N) (s : list N) : NoDup s → NoDup (set_add uid s).
Proof.
  intros Hs. unfold set_add. case_decide; [done|].
  apply NoDup_app. split_and!; [done| |apply NoDup_singleton].
  intros x Hx ->%list_elem_of_singleton. contradiction.
Qed.

Lemma match_from_present (descs : list (list float)) (i : nat)
    (st : match_state) (uid : N) :
  uid ∈ (match_from byUser i descs st).1
  ↔ uid ∈ st.1 ∨ ∃ desc, desc ∈ descs ∧ decide_face byUser desc = Match uid.
Proof.
  revert i st. induction descs as [|desc rest IH]; intros i st; simpl.
  - split; [by left|]. intros [?|(d & Hd & _)]; [done|].
    by apply elem_of_nil in Hd.
  - rewrite IH. unfold match_face.
    destruct (decide_face byUser desc) as [u|bd] eqn:Hface; simpl.
    + rewrite elem_of_set_add. split.
      * intros [[?| ->]|(d & ? & ?)]; [by left|right..].
        -- exists desc. split; [by left|done].
        -- exists d. split; [by right|done].
      * intros [?|(d & [->|?]%elem_of_cons & Hd)].
        -- by left; left.
        -- left; right. congruence.
        -- right. by exists d.
    + split.
      * intros [?|(d & ? & ?)]; [by left|right].
        exists d. split; [by right|done].
      * intros [?|(d & [->|?]%elem_of_cons & Hd)]; [by left|congruence|].
        right. by exists d.
Qed.

Lemma match_from_present_NoDup (descs : list (list float)) (i : nat)
    (st : match_state) :
  NoDup st.1 → NoDup (match_from byUser i descs st).1.
Proof.
  revert i st. induction descs as [|desc rest IH]; intros i st Hst; [done|].
  simpl. apply IH. unfold match_face.
  destruct (decide_face byUser desc); simpl; [by apply NoDup_set_add|done].
Qed.

Lemma match_from_unknown (descs : list (list float)) (i : nat)
    (st : match_state) (u : unknown_face) :
  u ∈ (match_from byUser i descs st).2
  ↔ u ∈ st.2
    ∨ ∃ k desc, descs !! k = Some desc ∧ index u = (i + k)%nat
                ∧ decide_face byUser desc = Unknown (bestDistance u).
Proof.
  revert i st. induction descs as [|desc rest IH]; intros i st; simpl.
  - split; [by left|]. intros [?|(k & d & Hd & _)]; [done|].
    by rewrite lookup_nil in Hd.
  - rewrite IH. unfold match_face.
    destruct (decide_face byUser desc) as [uid|bd] eqn:Hface; simpl.
    + split.
      * intros [?|(k & d & ? & ? & ?)]; [by left|right].
        exists (S k), d. split_and!; [done|lia|done].
      * intros [?|([|k] & d & Hk & Hi & Hd)]; [by left| |].
        -- simpl in Hk. congruence.
        -- right. exists k, d. split_and!; [done|lia|done].
    + rewrite elem_of_app, list_elem_of_singleton. split.
      * intros [[?| ->]|(k & d & ? & ? & ?)]; [by left|right..].
        -- exists 0%nat, desc. simpl. split_and!; [done|lia|done].
        -- exists (S k), d. split_and!; [done|lia|done].
      * intros [?|([|k] & d & Hk & Hi & Hd)]; [by left; left| |].
        -- left; right. simpl in Hk. injection Hk as <-.
           destruct u as [iu bu]. simpl in *. f_equal; [lia|congruence].
        -- right. exists k, d. split_and!; [done|lia|done].
Qed.

Lemma match_from_unknown_NoDup (descs : list (list float)) (i : nat)
    (st : match_state) :
  Forall (fun u => (index u < i)%nat) st.2 →
  NoDup (index <$> st.2) →
  NoDup (index <$> (match_from byUser i descs st).2).
Proof.
  revert i st. induction descs as [|desc rest IH]; intros i st Hlt Hnd; [done|].
  simpl. unfold match_face.
  destruct (decide_face byUser desc) as [uid|bd]; apply IH; simpl.
  - eapply Forall_impl; [done|]. simpl. lia.
  - done.
  - apply Forall_app. split.
    + eapply Forall_impl; [done|]. simpl. lia.
    + apply Forall_singleton. simpl. lia.
  - rewrite fmap_app. apply NoDup_app. split_and!; [done| |apply NoDup_singleton].
    intros x Hx ->%list_elem_of_singleton.
    apply list_elem_of_fmap in Hx as (u & Hu & Hin).
    rewrite Forall_forall in Hlt. specialize (Hlt u Hin). simpl in *. lia.
Qed.

Lemma match_all_present (descs : list (list float)) (uid : N) :
  uid ∈ (match_all byUser descs).1
  ↔ ∃ desc, desc ∈ descs ∧ decide_face byUser desc = Match uid.
Proof.
  unfold match_all. rewrite match_from_present. simpl.
  rewrite elem_of_nil. tauto.
Qed.

Lemma match_all_unknown (descs : list (list float)) (u : unknown_face) :
  u ∈ (match_all byUser descs).2
  ↔ ∃ desc, descs !! index u = Some desc
            ∧ decide_face byUser desc = Unknown (bestDistance u).
Proof.
  unfold match_all. rewrite match_from_unknown. simpl.
  rewrite elem_of_nil. split.
  - intros [[]|(k & d & Hk & -> & Hd)]. by exists d.
  - intros (d & Hk & Hd). right. by exists (index u), d.
Qed.

Lemma match_all_present_NoDup (descs : list (list float)) :
  NoDup (match_all byUser descs).1.
Proof. apply match_from_present_NoDup. simpl. apply NoDup_nil_2. Qed.

Lemma match_all_unknown_NoDup (descs : list (list float)) :
  NoDup (index <$> (match_all byUser descs).2).
Proof.
  apply match_from_unknown_NoDup; simpl; [apply Forall_nil_2|apply NoDup_nil_2].
Qed.

End MatchLoop.

(** ** The decision for one face *)

Section Decision.

Variables (byUser : list (N * list (list float))) (desc : list float).

Lemma neg_infinity_below (x : float) :
  Number.is_number x → (x <? 0) = false → (neg_infinity <? x) = true.
Proof.
  rewrite is_number_spec, !ltb_spec.
  change (Prim2SF 0) with (S754_zero false).
  change (Prim2SF neg_infinity) with (S754_infinity true).
  destruct (Prim2SF x) as [s|s| |s m e]; try destruct s;
    unfold SFltb, SFcompare; simpl; intros; congruence.
Qed.

Lemma dist_not_negative (a b : list float) : (dist a b <? 0) = false.
Proof. apply sqrt_not_negative. Qed.

(** A best distance reached by a candidate is a finite number. *)
Lemma best_finite (uid : N) :
  (best_match byUser desc).1 = Some uid →
  Number.isFinite (best_match byUser desc).2 = true.
Proof.
  intros Huid. destruct (best_match_inv desc byUser) as [_ Hbest].
  rewrite Huid in Hbest. destruct Hbest as [Hinf [e [_ Hd]]].
  unfold Number.isFinite. rewrite Hinf, andb_true_r.
  apply neg_infinity_below; [by eapply ltb_is_number|].
  rewrite <- Hd. apply dist_not_negative.
Qed.

(** The decision, with the redundant parts of its tests resolved. *)
Lemma decide_face_cases :
  decide_face byUser desc
  = match (best_match byUser desc).1 with
    | Some uid =>
        if (best_match byUser desc).2 <? THRESHOLD then Match uid
        else Unknown (Some (best_match byUser desc).2)
    | None => Unknown None
    end.
Proof.
  unfold decide_face.
  pose proof best_finite as Hfin.
  destruct (best_match_inv desc byUser) as [_ Hbest].
  destruct (best_match byUser desc) as [[uid|] best]; simpl in *.
  - by rewrite (Hfin uid).
  - by rewrite Hbest.
Qed.

Lemma decide_face_Match (uid : N) :
  decide_face byUser desc = Match uid
  ↔ (best_match byUser desc).1 = Some uid
    ∧ ((best_match byUser desc).2 <? THRESHOLD) = true.
Proof.
  rewrite decide_face_cases.
  destruct (best_match byUser desc).1 as [u|]; [|naive_solver].
  destruct ((best_match byUser desc).2 <? THRESHOLD); naive_solver.
Qed.

Lemma decide_face_Unknown (bd : option float) :
  decide_face byUser desc = Unknown bd →
  ((best_match byUser desc).2 <? THRESHOLD) = false.
Proof.
  rewrite decide_face_cases.
  destruct ((best_match byUser desc).2 <? THRESHOLD) eqn:Hlt; [|done].
  destruct (best_below_threshold desc byUser Hlt) as [uid ->]. discriminate.
Qed.

(** A face matched to [uid] is closer than the threshold to a candidate
    embedding of [uid]. *)
Lemma decide_face_Match_candidate (uid : N) :
  decide_face byUser desc = Match uid →
  ∃ e, (uid, e) ∈ candidates byUser ∧ (dist desc e <? THRESHOLD) = true.
Proof.
  intros [Huid Hlt]%decide_face_Match.
  destruct (best_match_inv desc byUser) as [_ Hbest].
  rewrite Huid in Hbest. destruct Hbest as [_ [e [He Hd]]].
  exists e. by rewrite Hd.
Qed.

Lemma no_candidate_unknown :
  candidates byUser = [] → decide_face byUser desc = Unknown None.
Proof.
  intros Hnil. rewrite decide_face_cases.
  destruct (best_match_inv desc byUser) as [_ Hbest].
  destruct (best_match byUser desc).1 as [uid|]; [|done].
  destruct Hbest as [_ [e [He _]]]. rewrite Hnil in He.
  by apply elem_of_nil in He.
Qed.

(** A candidate closer than the threshold makes the face a match. *)
Lemma close_candidate_matches (e : list float) (uid : N) :
  (uid, e) ∈ candidates byUser →
  (dist desc e <? THRESHOLD) = true →
  ∃ uid', decide_face byUser desc = Match uid'.
Proof.
  intros He Hlt.
  destruct (best_match_inv desc byUser) as [Hlow Hbest].
  assert (Hnum : Number.is_number (best_match byUser desc).2).
  { destruct (best_match byUser desc).1.
    - destruct Hbest as [Hinf _]. by eapply ltb_is_number.
    - by rewrite Hbest. }
  pose proof (ltb_below _ _ _ (Hlow (uid, e) He) Hlt Hnum) as Hbelow.
  destruct (best_below_threshold desc byUser Hbelow) as [uid' Huid'].
  exists uid'. by apply decide_face_Match.
Qed.

(** An unknown face has no candidate closer than the threshold. *)
Lemma unknown_no_close_candidate (bd : option float) (e : list float) (uid : N) :
  decide_face byUser desc = Unknown bd →
  (uid, e) ∈ candidates byUser →
  (dist desc e <? THRESHOLD) = false.
Proof.
  intros Hface He.
  destruct (dist desc e <? THRESHOLD) eqn:Hlt; [|done].
  destruct (close_candidate_matches e uid He Hlt) as [uid' Huid'].
  congruence.
Qed.

End Decision.

(** ** The distance *)

Section Distance.

Lemma fold_left_fmap {A B C : Type} (f : A → C → A) (g : B → C) (l : list B)
    (s : A) :
  fold_left f (g <$> l) s = fold_left (fun s x => f s (g x)) l s.
Proof. revert s. induction l as [|x l IH]; intros s; [done|]. apply IH. Qed.

(** The index loop of [dist] visits the pairs of [zip a b]. *)
Lemma dist_fold_zip (a b : list float) (s : float) :
  fold_left (dist_body a b) (seq 0 (Nat.min (length a) (length b))) s
  = fold_left (fun s '(x, y) => s + (x - y) * (x - y)) (zip a b) s.
Proof.
  revert b s. induction a as [|x a IH]; intros [|y b] s; try done.
  simpl. rewrite <- seq_shift, fold_left_fmap. apply IH.
Qed.

Lemma zip_take_min (a b : list float) :
  zip (take (Nat.min (length a) (length b)) a)
      (take (Nat.min (length a) (length b)) b)
  = zip a b.
Proof.
  revert b. induction a as [|x a IH]; intros [|y b]; try done.
  simpl. f_equal. apply IH.
Qed.

Lemma dist_euclidean (a b : list float) : dist a b = euclidean a b.
Proof. unfold dist, euclidean. f_equal. apply dist_fold_zip. Qed.

Lemma dist_nil_r (a : list float) : dist a [] = 0.
Proof. unfold dist. by rewrite Nat.min_0_r. Qed.

End Distance.

(** C4, as the code has it.  [dist] never fails: for embeddings of any two
    lengths it returns the Euclidean distance of their common prefix (the
    first [min (length a) (length b)] coordinates of each), a number that is
    never negative; on equal lengths this is the Euclidean distance of the
    contract. *)
Theorem dist_common_prefix (a b : list float) :
  let len := Nat.min (length a) (length b) in
  dist a b = euclidean (take len a) (take len b)
  ∧ (dist a b <? 0) = false
  ∧ (length a = length b → distance_spec a b = inr (dist a b)).
Proof.
  split_and!.
  - unfold euclidean. rewrite zip_take_min. apply dist_euclidean.
  - apply dist_not_negative.
  - intros Hlen. unfold distance_spec. rewrite decide_True by done.
    by rewrite dist_euclidean.
Qed.

(** C4 fails as stated: on lengths 3 and 1 the contract asks for a
    LengthMismatch error, and [dist] returns the number 0, computed on the
    first coordinate alone. *)
Lemma dist_length_mismatch_truncates :
  length [1; 0; 0] ≠ length [1]
  ∧ distance_spec [1; 0; 0] [1] = inl LengthMismatch
  ∧ dist [1; 0; 0] [1] = 0
  ∧ distance_spec [1; 0; 0] [1] ≠ inr (dist [1; 0; 0] [1]).
Proof. split_and!; [simpl; lia|reflexivity|reflexivity|discriminate]. Qed.

(** C3.  For one detected face the scan leaves in [best] the minimum of the
    distances to the candidate embeddings: no candidate is below it, and it is
    the distance of a candidate of [bestUid], or still infinite with no
    [bestUid] when there is nothing to improve on.  The face is a match for
    [bestUid] exactly when [best] is below the threshold 0.6 (the rule of
    [isFaceMatch]); otherwise it is unknown, with [bestDistance] the minimum,
    or null when there was no candidate. *)
Theorem matcher_decision_rule (byUser : list (N * list (list float)))
    (desc : list float) :
  let bestUid := (best_match byUser desc).1 in
  let best := (best_match byUser desc).2 in
  THRESHOLD = 0.6
  ∧ (∀ uid e, (uid, e) ∈ candidates byUser → (dist desc e <? best) = false)
  ∧ match bestUid with
    | Some uid =>
        (∃ e, (uid, e) ∈ candidates byUser ∧ dist desc e = best)
        ∧ decide_face byUser desc
          = if best <? THRESHOLD then Match uid else Unknown (Some best)
    | None => best = infinity ∧ decide_face byUser desc = Unknown None
    end
  ∧ ((∃ uid, decide_face byUser desc = Match uid) ↔ (best <? THRESHOLD) = true)
  ∧ (∀ uid, decide_face byUser desc = Match uid
       ↔ bestUid = Some uid ∧ isFaceMatch best None = true)
  ∧ (candidates byUser = [] → decide_face byUser desc = Unknown None).
Proof.
  simpl.
  destruct (best_match_inv desc byUser) as [Hlow Hbest].
  pose proof (decide_face_cases byUser desc) as Hcases.
  split_and!.
  - reflexivity.
  - intros uid e He. apply (Hlow (uid, e) He).
  - destruct (best_match byUser desc).1 as [uid|].
    + destruct Hbest as [_ He]. done.
    + done.
  - split.
    + intros [uid [_ Hlt]%decide_face_Match]. done.
    + intros Hlt. destruct (best_below_threshold desc byUser Hlt) as [uid Huid].
      exists uid. by apply decide_face_Match.
  - intros uid. apply decide_face_Match.
  - intros Hnil. rewrite Hcases.
    destruct (best_match byUser desc).1 as [uid|]; [|done].
    destruct Hbest as [_ [e [He _]]]. rewrite Hnil in He.
    by apply elem_of_nil in He.
Qed.

(** ** The handler *)

Section Handler.

Implicit Types (up : upstream) (req : request) (db : database) (b : body).

Lemma filter_not_in_nil (l : list N) : filter (fun id => id ∉ []) l = l.
Proof.
  induction l as [|x l IH]; [done|].
  rewrite filter_cons_True by apply not_elem_of_nil. by rewrite IH.
Qed.

Lemma reconcile_nil (students : list student) (facesData : list face) :
  reconcile students facesData [] = Attendance [] (s_user_id <$> students) [].
Proof. unfold reconcile. simpl. by rewrite filter_not_in_nil. Qed.

Lemma reconcile_present (students : list student) (facesData : list face)
    (descs : list (list float)) :
  present_students (reconcile students facesData descs)
  = (match_all (build_by_user facesData) descs).1.
Proof. unfold reconcile. by destruct (match_all _ _). Qed.

Lemma reconcile_unknown (students : list student) (facesData : list face)
    (descs : list (list float)) :
  unknown_faces (reconcile students facesData descs)
  = (match_all (build_by_user facesData) descs).2.
Proof. unfold reconcile. by destruct (match_all _ _). Qed.

Lemma reconcile_absent (students : list student) (facesData : list face)
    (descs : list (list float)) :
  absent_students (reconcile students facesData descs)
  = filter (fun id => id ∉ present_students (reconcile students facesData descs))
      (s_user_id <$> students).
Proof. unfold reconcile. by destruct (match_all _ _). Qed.

(** With every upstream call answering, the handler runs to its end. *)
Lemma serve_healthy req db b :
  is_options req = false →
  json req = Some b →
  let students := class_roster db (b_classId b) in
  let facesData := faces_of db (s_id <$> students) in
  let inputDescriptors := default [] (b_descriptors b) in
  let att := reconcile students facesData inputDescriptors in
  serve healthy req db
  = (Success (length (present_students att)) (length (absent_students att)),
     Database (tbl_students db) (tbl_faces_data db)
       (alter (set_completed (length inputDescriptors)) (b_photoId b)
          (alter set_processing (b_photoId b) (tbl_photos db)))
       (tbl_attendance_records db
          ++ [AttendanceRecord (b_photoId b) (b_classId b) att])).
Proof.
  intros Hopt Hjson. unfold serve, process_attendance, req_json.
  rewrite Hopt, Hjson. reflexivity.
Qed.

(** What a run does to the status of its photo: [processing] first, and
    [completed] only at the end of a run without upstream failure. *)
Lemma serve_status up req db b :
  is_options req = false →
  json req = Some b →
  status_of (serve up req db).2 (b_photoId b)
  = (fun _ => if students_fail up || faces_fail up || insert_fail up
              then processing else completed)
    <$> status_of db (b_photoId b).
Proof.
  intros Hopt Hjson. unfold serve, process_attendance, req_json, status_of.
  rewrite Hopt, Hjson.
  destruct up as [[|] [|] [|]]; simpl;
    rewrite ?lookup_alter_eq; by destruct (tbl_photos db !! b_photoId b).
Qed.

Lemma serve_status_other up req db b (photoId : N) :
  json req = Some b →
  photoId ≠ b_photoId b →
  status_of (serve up req db).2 photoId = status_of db photoId.
Proof.
  intros Hjson Hne. unfold serve, process_attendance, req_json, status_of.
  rewrite Hjson.
  destruct (is_options req), up as [[|] [|] [|]]; simpl;
    by rewrite ?lookup_alter_ne.
Qed.

(** No run of the handler writes [failed]. *)
Lemma serve_never_writes_failed up req db (photoId : N) :
  status_of (serve up req db).2 photoId = Some failed →
  status_of db photoId = Some failed.
Proof.
  destruct (json req) as [b|] eqn:Hjson.
  - destruct (decide (photoId = b_photoId b)) as [->|Hne].
    + destruct (is_options req) eqn:Hopt.
      * unfold serve. by rewrite Hopt.
      * rewrite (serve_status up req db b Hopt Hjson).
        destruct (status_of db (b_photoId b)); [|done]. simpl.
        by destruct (_ || _).
    + by rewrite (serve_status_other up req db b photoId Hjson Hne).
  - unfold serve, process_attendance, req_json. rewrite Hjson.
    by destruct (is_options req).
Qed.

End Handler.

(** ** The attendance record *)

Section Record.

Implicit Types (students : list student) (facesData : list face)
  (descs : list (list float)).

Lemma present_absent_disjoint students facesData descs (x : N) :
  x ∈ present_students (reconcile students facesData descs) →
  x ∉ absent_students (reconcile students facesData descs).
Proof.
  intros Hp. rewrite reconcile_absent, list_elem_of_filter. tauto.
Qed.

Lemma roster_present_or_absent students facesData descs (x : N) :
  x ∈ s_user_id <$> students →
  x ∈ present_students (reconcile students facesData descs)
  ∨ x ∈ absent_students (reconcile students facesData descs).
Proof.
  intros Hx. rewrite reconcile_absent, list_elem_of_filter.
  destruct (decide (x ∈ present_students (reconcile students facesData descs)));
    tauto.
Qed.

Lemma absent_in_roster students facesData descs (x : N) :
  x ∈ absent_students (reconcile students facesData descs) →
  x ∈ s_user_id <$> students.
Proof. rewrite reconcile_absent, list_elem_of_filter. tauto. Qed.

(** A present user is the [user_id] of a row with a non-empty embedding that
    some detected face is closer to than the threshold. *)
Lemma present_matched_row students facesData descs (uid : N) :
  uid ∈ present_students (reconcile students facesData descs) →
  ∃ f e desc, f ∈ facesData ∧ f_user_id f = uid ∧ f_embedding f = Some e
              ∧ e ≠ [] ∧ desc ∈ descs ∧ (dist desc e <? THRESHOLD) = true.
Proof.
  rewrite reconcile_present, match_all_present.
  intros (desc & Hdesc & Hface).
  apply decide_face_Match_candidate in Hface as (e & He & Hlt).
  apply candidates_build in He as (f & e' & Hf & Hemb & Hne & [= -> ->]).
  by exists f, e', desc.
Qed.

Lemma unknown_index_face students facesData descs (i : nat) (desc : list float) :
  descs !! i = Some desc →
  i ∈ index <$> unknown_faces (reconcile students facesData descs) →
  ∃ bd, decide_face (build_by_user facesData) desc = Unknown bd.
Proof.
  intros Hi (u & -> & Hu)%list_elem_of_fmap.
  rewrite reconcile_unknown in Hu.
  apply match_all_unknown in Hu as (desc' & Hlook & Hface).
  rewrite Hi in Hlook. injection Hlook as <-. eauto.
Qed.

Lemma filter_eq_not_in (x : N) (l : list N) :
  x ∉ l → filter (fun y => y = x) l = [].
Proof.
  induction l as [|y l IH]; [done|].
  rewrite not_elem_of_cons, filter_cons. intros [Hxy Hx].
  rewrite decide_False by done. by apply IH.
Qed.

Lemma NoDup_count_one (x : N) (l : list N) :
  NoDup l → x ∈ l → length (filter (fun y => y = x) l) = 1%nat.
Proof.
  induction 1 as [|y l Hy Hl IH]; [by intros ?%elem_of_nil|].
  rewrite elem_of_cons, filter_cons. case_decide as Hxy.
  - subst y. intros _. by rewrite filter_eq_not_in.
  - intros [->|Hx]; [done|]. by apply IH.
Qed.

End Record.

(** * The claims *)

(** C1, as the code has it.  For every roster, every list of fetched rows
    and every list of descriptors, [present_students] and [absent_students]
    are disjoint, every student of the roster is in one of them, and
    [absent_students] holds students of the roster only.  Their union is the
    roster provided every fetched row of [faces_data] carries the [user_id]
    of a student of the roster. *)
Theorem present_absent_partition (students : list student)
    (facesData : list face) (descs : list (list float)) :
  let r := reconcile students facesData descs in
  (∀ x, ¬ (x ∈ present_students r ∧ x ∈ absent_students r))
  ∧ (∀ x, x ∈ s_user_id <$> students →
          x ∈ present_students r ∨ x ∈ absent_students r)
  ∧ (∀ x, x ∈ absent_students r → x ∈ s_user_id <$> students)
  ∧ (Forall (fun f => f_user_id f ∈ s_user_id <$> students) facesData →
     ∀ x, x ∈ present_students r ∨ x ∈ absent_students r
          ↔ x ∈ s_user_id <$> students).
Proof.
  simpl. split_and!.
  - intros x [Hp Ha]. by apply (present_absent_disjoint students facesData descs x).
  - apply roster_present_or_absent.
  - apply absent_in_roster.
  - intros Hrows x. split.
    + intros [Hp|Ha]; [|by eapply absent_in_roster].
      apply present_matched_row in Hp as (f & _ & _ & Hf & <- & _).
      rewrite Forall_forall in Hrows. by apply Hrows.
    + apply roster_present_or_absent.
Qed.

Lemma present_absent_partition_witness :
  Forall (fun f => f_user_id f ∈ s_user_id <$> [S1; S2]) scenario_faces
  ∧ let r := reconcile [S1; S2] scenario_faces [[1; 0; 0]] in
    (∀ x, ¬ (x ∈ present_students r ∧ x ∈ absent_students r))
    ∧ (∀ x, x ∈ present_students r ∨ x ∈ absent_students r
            ↔ x ∈ s_user_id <$> [S1; S2]).
Proof.
  assert (Hrows : Forall (fun f => f_user_id f ∈ s_user_id <$> [S1; S2])
                    scenario_faces).
  { apply (bool_decide_unpack _). vm_compute. exact I. }
  destruct (present_absent_partition [S1; S2] scenario_faces [[1; 0; 0]])
    as (Hdisj & _ & _ & Hunion).
  split; [exact Hrows|]. split; [exact Hdisj|exact (Hunion Hrows)].
Defined.

(** C1 fails as stated.  A row of [faces_data] with the [student_id] of a
    student of the class and the [user_id] of somebody else passes the query
    of the handler; a face that matches it makes that foreign user present,
    and the union is no longer the roster. *)
Lemma stray_face_row_breaks_partition :
  class_roster stray_db "CSE-A" = [S1]
  ∧ faces_of stray_db (s_id <$> [S1]) = [stray_face]
  ∧ tbl_attendance_records (serve healthy (post [[1; 0; 0]]) stray_db).2
    = [AttendanceRecord 7 "CSE-A" (reconcile [S1] [stray_face] [[1; 0; 0]])]
  ∧ present_students (reconcile [S1] [stray_face] [[1; 0; 0]]) = [13%N]
  ∧ absent_students (reconcile [S1] [stray_face] [[1; 0; 0]]) = [11%N]
  ∧ 13%N ∉ s_user_id <$> [S1].
Proof.
  split_and!; try (vm_compute; reflexivity).
  simpl. intros [Heq|[]%elem_of_nil]%elem_of_cons. discriminate Heq.
Qed.

(** C2.  Every detected face has exactly one outcome: either it is a match
    for one user, who has a candidate embedding closer to the face than the
    threshold and is then in [present_students], and its index is not in
    [unknown_faces]; or it is a match for nobody, no candidate embedding is
    closer to it than the threshold, and [unknown_faces] holds its index, in
    one entry.  Every entry of [unknown_faces] is the index of a detected
    face that no candidate embedding is closer to than the threshold (its
    [bestDistance] is null when there was no candidate), and every present
    user is the match of some detected face. *)
Theorem every_face_one_outcome (students : list student)
    (facesData : list face) (descs : list (list float)) :
  let r := reconcile students facesData descs in
  let byUser := build_by_user facesData in
  (∀ i desc, descs !! i = Some desc →
     ((∃ uid, decide_face byUser desc = Match uid
              ∧ uid ∈ present_students r
              ∧ (∃ e, (uid, e) ∈ candidates byUser
                      ∧ (dist desc e <? THRESHOLD) = true)
              ∧ ∀ uid', decide_face byUser desc = Match uid' → uid' = uid)
      ∧ i ∉ index <$> unknown_faces r)
     ∨ ((∀ uid, decide_face byUser desc ≠ Match uid)
        ∧ (∀ uid e, (uid, e) ∈ candidates byUser
                    → (dist desc e <? THRESHOLD) = false)
        ∧ ∃ bd, UnknownFace i bd ∈ unknown_faces r
                ∧ ∀ u, u ∈ unknown_faces r → index u = i → u = UnknownFace i bd))
  ∧ NoDup (index <$> unknown_faces r)
  ∧ (∀ u, u ∈ unknown_faces r →
       ∃ desc, descs !! index u = Some desc
               ∧ decide_face byUser desc = Unknown (bestDistance u)
               ∧ (∀ uid e, (uid, e) ∈ candidates byUser
                           → (dist desc e <? THRESHOLD) = false)
               ∧ ((best_match byUser desc).2 <? THRESHOLD) = false
               ∧ (candidates byUser = [] → bestDistance u = None))
  ∧ (∀ uid, uid ∈ present_students r →
       ∃ i desc, descs !! i = Some desc ∧ decide_face byUser desc = Match uid).
Proof.
  simpl. split_and!.
  - intros i desc Hi.
    destruct (decide_face (build_by_user facesData) desc) as [uid|bd] eqn:Hface.
    + left. split.
      * exists uid. split_and!; [done| |by apply decide_face_Match_candidate
                                 |congruence].
        rewrite reconcile_present, match_all_present. exists desc.
        split; [|done]. apply list_elem_of_lookup. eauto.
      * intros [bd Hbd]%(unknown_index_face _ _ _ _ desc Hi). congruence.
    + right. split_and!; [done| |].
      * intros uid e. by apply (unknown_no_close_candidate _ desc bd).
      * exists bd. split.
        -- rewrite reconcile_unknown, match_all_unknown. by exists desc.
        -- intros u Hu Hiu. rewrite reconcile_unknown, match_all_unknown in Hu.
           destruct Hu as (desc' & Hlook & Hface'). rewrite Hiu, Hi in Hlook.
           injection Hlook as <-. destruct u as [iu bu]. simpl in *. congruence.
  - rewrite reconcile_unknown. apply match_all_unknown_NoDup.
  - intros u Hu. rewrite reconcile_unknown, match_all_unknown in Hu.
    destruct Hu as (desc & Hlook & Hface). exists desc.
    split_and!; [done|done| |by eapply decide_face_Unknown|].
    + intros uid e. by apply (unknown_no_close_candidate _ desc (bestDistance u)).
    + intros Hnil.
      pose proof (no_candidate_unknown (build_by_user facesData) desc Hnil) as Hn.
      rewrite Hface in Hn. by injection Hn.
  - intros uid Hp. rewrite reconcile_present, match_all_present in Hp.
    destruct Hp as (desc & [i Hi]%list_elem_of_lookup & Hface). eauto.
Qed.

(** C5, as the code has it.  A candidate whose length differs from that of
    the detected embedding is not skipped: [dist] raises no error on it, it
    compares the two on their common prefix and returns a number, the
    candidate takes part in the minimum like any other, and when that number
    is below the threshold the face is matched (to the candidate's user or to
    one at least as close). *)
Theorem mismatched_candidate_competes (byUser : list (N * list (list float)))
    (desc e : list float) (uid : N) :
  (uid, e) ∈ candidates byUser →
  length e ≠ length desc →
  let len := Nat.min (length desc) (length e) in
  dist desc e = euclidean (take len desc) (take len e)
  ∧ (dist desc e <? (best_match byUser desc).2) = false
  ∧ ((dist desc e <? THRESHOLD) = true →
       ∃ uid', decide_face byUser desc = Match uid').
Proof.
  intros He _. simpl.
  destruct (best_match_inv desc byUser) as [Hlow Hbest].
  split_and!.
  - unfold euclidean. rewrite zip_take_min. apply dist_euclidean.
  - apply (Hlow (uid, e) He).
  - intros Hlt.
    assert (Hnum : Number.is_number (best_match byUser desc).2).
    { destruct (best_match byUser desc).1.
      - destruct Hbest as [Hinf _]. by eapply ltb_is_number.
      - by rewrite Hbest. }
    pose proof (ltb_below _ _ _ (Hlow (uid, e) He) Hlt Hnum) as Hbelow.
    destruct (best_below_threshold desc byUser Hbelow) as [uid' Huid'].
    exists uid'. by apply decide_face_Match.
Qed.

Lemma mismatched_candidate_competes_witness :
  (11%N, [1]) ∈ candidates [(11%N, [[1]])]
  ∧ length [1] ≠ length [1; 0; 0]
  ∧ dist [1; 0; 0] [1] = euclidean (take 1 [1; 0; 0]) (take 1 [1])
  ∧ ∃ uid', decide_face [(11%N, [[1]])] [1; 0; 0] = Match uid'.
Proof.
  assert (Hc : (11%N, [1]) ∈ candidates [(11%N, [[1]])]) by (vm_compute; left).
  assert (Hlen : length [1] ≠ length [1; 0; 0]) by (simpl; lia).
  destruct (mismatched_candidate_competes _ [1; 0; 0] [1] 11%N Hc Hlen)
    as (Hd & _ & Hm).
  split_and!; [exact Hc|exact Hlen|exact Hd|apply Hm; reflexivity].
Defined.

(** C5 fails as stated: the only registered embedding has one coordinate, the
    detected one has three, and the face is matched to that row's user. *)
Lemma mismatched_candidate_wins :
  faces_of short_db (s_id <$> class_roster short_db "CSE-A")
  = [short_face; Face 12 2 (Some [0; 1; 0])]
  ∧ length [1] ≠ length [1; 0; 0]
  ∧ dist [1; 0; 0] [1] = 0
  ∧ decide_face (build_by_user [short_face; Face 12 2 (Some [0; 1; 0])]) [1; 0; 0]
    = Match 11
  ∧ tbl_attendance_records (after healthy (post [[1; 0; 0]]) short_db)
    = [AttendanceRecord 7 "CSE-A" (Attendance [11%N] [12%N] [])].
Proof. split_and!; try (vm_compute; reflexivity). simpl. lia. Qed.

(** C6, as the code has it.  The matcher of the edge function that receives
    the descriptors has no hidden state: the response of a run and the
    attendance rows it adds are determined by the request, the upstream
    failures and the registered data (the tables [students] and
    [faces_data]); in particular a second run on the database left by the
    first one gives the same result.  (The simulated variant is not
    deterministic; see [simulated_runs_differ].) *)
Theorem matcher_deterministic (up : upstream) (req : request)
    (db db' : database) :
  tbl_students db = tbl_students db' →
  tbl_faces_data db = tbl_faces_data db' →
  (serve up req db).1 = (serve up req db').1
  ∧ ∃ added,
      tbl_attendance_records (serve up req db).2
        = tbl_attendance_records db ++ added
      ∧ tbl_attendance_records (serve up req db').2
        = tbl_attendance_records db' ++ added.
Proof.
  destruct db as [ss fs ps rs], db' as [ss' fs' ps' rs']. simpl.
  intros <- <-.
  unfold serve, process_attendance, req_json, class_roster, faces_of.
  destruct (is_options req); [by split; [|exists []; rewrite !app_nil_r]|].
  destruct (json req) as [b|]; [|by split; [|exists []; rewrite !app_nil_r]].
  destruct up as [[|] [|] [|]]; simpl;
    (split; [done|]);
    (by exists []; rewrite !app_nil_r) || (by eexists [_]).
Qed.

Lemma matcher_deterministic_witness :
  let req := post [[1; 0; 0]; [0; 0; 1]] in
  let db' := after healthy req scenario_db in
  tbl_students scenario_db = tbl_students db'
  ∧ tbl_faces_data scenario_db = tbl_faces_data db'
  ∧ (serve healthy req scenario_db).1 = (serve healthy req db').1
  ∧ ∃ added,
      tbl_attendance_records (serve healthy req scenario_db).2
        = tbl_attendance_records scenario_db ++ added
      ∧ tbl_attendance_records (serve healthy req db').2
        = tbl_attendance_records db' ++ added.
Proof.
  assert (Hs : tbl_students scenario_db
               = tbl_students (after healthy (post [[1; 0; 0]; [0; 0; 1]]) scenario_db))
    by reflexivity.
  assert (Hf : tbl_faces_data scenario_db
               = tbl_faces_data (after healthy (post [[1; 0; 0]; [0; 0; 1]]) scenario_db))
    by reflexivity.
  split_and!; [exact Hs|exact Hf|..];
    apply (matcher_deterministic healthy (post [[1; 0; 0]; [0; 0; 1]])
             scenario_db _ Hs Hf).
Defined.

(** The simulated variant is another matter: what it answers depends on the
    numbers drawn. *)
Lemma simulation_depends_on_random :
  Simulation.simulate (fun _ => 0.9) [S1; S2] = Attendance [11%N; 12%N] [] []
  ∧ Simulation.simulate (fun _ => 0.1) [S1; S2] = Attendance [] [11%N; 12%N] [].
Proof. split; vm_compute; reflexivity. Qed.

(** C6 fails as stated for the simulated variant of the function: two runs
    on the same request and the same database, which differ in nothing but
    the numbers [Math.random] returns, mark different students present. *)
Lemma simulated_runs_differ :
  let req := Request false (Some (Body 7 "CSE-A" None)) in
  Simulated.serve (fun _ => 0.9) healthy req scenario_db
  = (Success 2 0,
     Database [S1; S2; S3] scenario_faces {[ 7%N := Photo completed 2 ]}
       [AttendanceRecord 7 "CSE-A" (Attendance [11%N; 12%N] [] [])])
  ∧ Simulated.serve (fun _ => 0.1) healthy req scenario_db
    = (Success 0 2,
       Database [S1; S2; S3] scenario_faces {[ 7%N := Photo completed 0 ]}
         [AttendanceRecord 7 "CSE-A" (Attendance [] [11%N; 12%N] [])])
  ∧ (Simulated.serve (fun _ => 0.9) healthy req scenario_db).1
    ≠ (Simulated.serve (fun _ => 0.1) healthy req scenario_db).1.
Proof. split_and!; [vm_compute; reflexivity..|vm_compute; discriminate]. Qed.

(** C7 at a failing run.  The photo is [pending]; the run sets it to
    [processing]; the upstream call fails, the handler answers 500, and the
    photo is left [processing], not [failed] -- whichever of the three checked
    calls fails.  A further run on a [completed] photo takes it back to
    [processing]. *)
Lemma upstream_failure_leaves_processing :
  let req := post [[1; 0; 0]] in
  status_of scenario_db 7 = Some pending
  ∧ serve (Upstream true false false) req scenario_db
    = (Failure StudentsError,
       Database [S1; S2; S3] scenario_faces {[ 7%N := Photo processing 0 ]} [])
  ∧ status_of (after (Upstream true false false) req scenario_db) 7 = Some processing
  ∧ (serve (Upstream false true false) req scenario_db).1 = Failure FacesError
  ∧ status_of (after (Upstream false true false) req scenario_db) 7 = Some processing
  ∧ (serve (Upstream false false true) req scenario_db).1 = Failure AttendanceError
  ∧ status_of (after (Upstream false false true) req scenario_db) 7 = Some processing
  ∧ tbl_attendance_records (after (Upstream false false true) req scenario_db) = []
  ∧ status_of (after healthy req scenario_db) 7 = Some completed
  ∧ status_of (after (Upstream true false false) req (after healthy req scenario_db)) 7
    = Some processing.
Proof. split_and!; vm_compute; reflexivity. Qed.

(** C8.  When two distinct detected faces are both matched to the same user,
    that user is in [present_students], exactly once, and neither face is in
    [unknown_faces]. *)
Theorem duplicate_matches_counted_once (students : list student)
    (facesData : list face) (descs : list (list float)) (i j : nat)
    (di dj : list float) (uid : N) :
  i ≠ j →
  descs !! i = Some di →
  descs !! j = Some dj →
  decide_face (build_by_user facesData) di = Match uid →
  decide_face (build_by_user facesData) dj = Match uid →
  let r := reconcile students facesData descs in
  uid ∈ present_students r
  ∧ NoDup (present_students r)
  ∧ length (filter (fun x => x = uid) (present_students r)) = 1%nat
  ∧ (i ∉ index <$> unknown_faces r)
  ∧ (j ∉ index <$> unknown_faces r).
Proof.
  intros _ Hi Hj Hdi Hdj. simpl.
  assert (Hin : uid ∈ present_students (reconcile students facesData descs)).
  { rewrite reconcile_present, match_all_present. exists di.
    split; [|done]. apply list_elem_of_lookup. eauto. }
  assert (Hnd : NoDup (present_students (reconcile students facesData descs))).
  { rewrite reconcile_present. apply match_all_present_NoDup. }
  split_and!; [done|done|by apply NoDup_count_one|..].
  - intros [bd Hbd]%(unknown_index_face _ _ _ _ di Hi). congruence.
  - intros [bd Hbd]%(unknown_index_face _ _ _ _ dj Hj). congruence.
Qed.

Lemma duplicate_matches_counted_once_witness :
  let descs := [[1; 0; 0]; [0.9; 0.1; 0]] in
  let r := reconcile [S1; S2] scenario_faces descs in
  decide_face (build_by_user scenario_faces) [1; 0; 0] = Match 11
  ∧ decide_face (build_by_user scenario_faces) [0.9; 0.1; 0] = Match 11
  ∧ r = Attendance [11%N] [12%N] []
  ∧ length (filter (fun x => x = 11%N) (present_students r)) = 1%nat.
Proof.
  assert (H0 : decide_face (build_by_user scenario_faces) [1; 0; 0] = Match 11)
    by (vm_compute; reflexivity).
  assert (H1 : decide_face (build_by_user scenario_faces) [0.9; 0.1; 0] = Match 11)
    by (vm_compute; reflexivity).
  assert (Hne : 0%nat ≠ 1%nat) by lia.
  pose proof (duplicate_matches_counted_once [S1; S2] scenario_faces
                [[1; 0; 0]; [0.9; 0.1; 0]] 0 1 _ _ 11%N Hne eq_refl eq_refl H0 H1)
    as (_ & _ & Hcount & _).
  split_and!; [exact H0|exact H1|vm_compute; reflexivity|exact Hcount].
Defined.

(** C9.  With no detected face (an empty list of descriptors, or none in the
    request) and the upstream calls answering, the run succeeds: it answers
    200 with no student present, records every student of the roster absent
    and no unknown face, and completes the photo. *)
Theorem no_descriptors_all_absent (req : request) (db : database) (b : body) :
  is_options req = false →
  json req = Some b →
  default [] (b_descriptors b) = [] →
  let roster := s_user_id <$> class_roster db (b_classId b) in
  (serve healthy req db).1 = Success 0 (length roster)
  ∧ tbl_attendance_records (serve healthy req db).2
    = tbl_attendance_records db
        ++ [AttendanceRecord (b_photoId b) (b_classId b) (Attendance [] roster [])]
  ∧ status_of (serve healthy req db).2 (b_photoId b)
    = (fun _ => completed) <$> status_of db (b_photoId b).
Proof.
  intros Hopt Hjson Hnil. simpl.
  rewrite (serve_status healthy req db b Hopt Hjson).
  rewrite (serve_healthy req db b Hopt Hjson). simpl.
  rewrite Hnil, reconcile_nil. done.
Qed.

Lemma no_descriptors_all_absent_witness :
  (serve healthy (post []) scenario_db).1 = Success 0 2
  ∧ tbl_attendance_records (serve healthy (post []) scenario_db).2
    = [AttendanceRecord 7 "CSE-A" (Attendance [] [11%N; 12%N] [])]
  ∧ status_of (serve healthy (post []) scenario_db).2 7 = Some completed.
Proof.
  exact (no_descriptors_all_absent (post []) scenario_db
           (Body 7 "CSE-A" (Some [])) eq_refl eq_refl eq_refl).
Defined.

(** C10.  The candidates of the lookup are exactly the non-empty array
    embeddings of the rows, so a row with an empty embedding, or with an
    embedding that is not an array, is no candidate; every present user was
    matched through a row with a non-empty embedding closer than the
    threshold to a detected face.  An empty embedding would be at distance 0
    of every detected face, below the threshold. *)
Theorem empty_embeddings_excluded (facesData : list face) :
  (∀ uid e, (uid, e) ∈ candidates (build_by_user facesData)
            ↔ e ≠ [] ∧ ∃ f, f ∈ facesData ∧ f_user_id f = uid
                            ∧ f_embedding f = Some e)
  ∧ (∀ students descs uid,
       uid ∈ present_students (reconcile students facesData descs) →
       ∃ f e desc, f ∈ facesData ∧ f_user_id f = uid ∧ f_embedding f = Some e
                   ∧ e ≠ [] ∧ desc ∈ descs ∧ (dist desc e <? THRESHOLD) = true)
  ∧ (∀ desc, dist desc [] = 0 ∧ (dist desc [] <? THRESHOLD) = true).
Proof.
  split_and!.
  - intros uid e. rewrite candidates_build. split.
    + intros (f & e' & Hf & Hemb & Hne & [= -> ->]). eauto.
    + intros (Hne & f & Hf & <- & Hemb). by exists f, e.
  - intros students descs uid. apply present_matched_row.
  - intros desc. by rewrite dist_nil_r.
Qed.

(** * Further properties *)

(** ** More on binary64 numbers *)

Section FloatArith.

Local Ltac by_compare_leb :=
  unfold SFltb, SFleb, SFcompare;
  repeat match goal with s : bool |- _ => destruct s end;
  try (simpl; congruence);
  rewrite ?Pos.compare_cont_spec; simpl Pos.switch_Eq;
  repeat match goal with
    | |- context [Z.compare ?x ?y] =>
        destruct (Z.compare_spec x y); try (simpl; congruence); try lia; subst
    | |- context [Pos.compare ?x ?y] =>
        destruct (Pos.compare_spec x y); try (simpl; congruence); try lia; subst
    end.

Lemma SFleb_above (c d b : spec_float) :
  SFltb c b = false → SFltb d b = true → SFleb c d = false.
Proof.
  destruct c as [sa|sa| |sa ma ea], d as [sb|sb| |sb mb eb],
    b as [sc|sc| |sc mc ec]; by_compare_leb.
Qed.

Lemma leb_above (c d b : float) :
  (c <? b) = false → (d <? b) = true → (c <=? d) = false.
Proof. rewrite leb_spec, !ltb_spec. apply SFleb_above. Qed.

Lemma SFleb_ltb (c d : spec_float) : SFleb c d = false → SFltb c d = false.
Proof. unfold SFleb, SFltb. by destruct (SFcompare c d) as [[| |]|]. Qed.

Lemma leb_ltb (c d : float) : (c <=? d) = false → (c <? d) = false.
Proof. rewrite leb_spec, ltb_spec. apply SFleb_ltb. Qed.

Lemma binary_round_aux_opp (s : bool) (m e : Z) (l : location) :
  binary_round_aux prec emax (negb s) m e l
  = SFopp (binary_round_aux prec emax s m e l).
Proof.
  unfold binary_round_aux.
  destruct (shr_fexp prec emax m e l) as [mrs1 e1].
  destruct (shr_fexp prec emax _ e1 loc_Exact) as [mrs2 e2].
  destruct (shr_m mrs2); try reflexivity.
  destruct (Z.leb e2 (emax - prec)); reflexivity.
Qed.

Lemma binary_round_opp (s : bool) (m : positive) (e : Z) :
  binary_round prec emax (negb s) m e = SFopp (binary_round prec emax s m e).
Proof.
  unfold binary_round.
  destruct (shl_align m e _) as [mz ez]. apply binary_round_aux_opp.
Qed.

Lemma binary_normalize_opp (m e : Z) :
  binary_normalize prec emax (- m) e false = binary_normalize prec emax m e false
  ∨ binary_normalize prec emax (- m) e false
    = SFopp (binary_normalize prec emax m e false).
Proof.
  destruct m as [|p|p]; simpl.
  - by left.
  - right. apply (binary_round_opp false).
  - right. apply (binary_round_opp true).
Qed.

(** [y - x] is [x - y] or its opposite (the two agree on [+0] and NaN). *)
Lemma SFsub_swap (x y : spec_float) :
  SFsub prec emax y x = SFsub prec emax x y
  ∨ SFsub prec emax y x = SFopp (SFsub prec emax x y).
Proof.
  destruct x as [sx|sx| |sx mx ex], y as [sy|sy| |sy my ey];
    try (try (destruct sx); try (destruct sy); simpl; auto; fail).
  unfold SFsub. rewrite (Z.min_comm ey ex).
  match goal with |- context [binary_normalize _ _ (?a - ?b)%Z] =>
    replace (a - b)%Z with (- (b - a))%Z by lia end.
  apply binary_normalize_opp.
Qed.

Lemma SFmul_opp (a : spec_float) :
  SFmul prec emax (SFopp a) (SFopp a) = SFmul prec emax a a.
Proof. destruct a as [s|s| |s m e]; try destruct s; reflexivity. Qed.

Lemma sub_square_swap (x y : float) : (x - y) * (x - y) = (y - x) * (y - x).
Proof.
  apply Prim2SF_inj. rewrite !mul_spec, !sub_spec. unfold SF64mul, SF64sub.
  destruct (SFsub_swap (Prim2SF y) (Prim2SF x)) as [->| ->]; [done|].
  by rewrite SFmul_opp.
Qed.

Lemma isFinite_cases (x : float) :
  Number.isFinite x = true →
  (∃ s, Prim2SF x = S754_zero s) ∨ ∃ s m e, Prim2SF x = S754_finite s m e.
Proof.
  unfold Number.isFinite. rewrite !ltb_spec.
  change (Prim2SF neg_infinity) with (S754_infinity true).
  change (Prim2SF infinity) with (S754_infinity false).
  destruct (Prim2SF x) as [s|s| |s m e]; eauto.
  - destruct s; discriminate.
  - discriminate.
Qed.

Lemma shl_align_same (m : positive) (e : Z) : shl_align m e e = (m, e).
Proof. unfold shl_align. by rewrite Z.sub_diag. Qed.

(** [x - x] is [+0] for every finite [x]. *)
Lemma sub_self (x : float) : Number.isFinite x = true → x - x = 0.
Proof.
  intros Hfin. apply Prim2SF_inj. rewrite sub_spec.
  change (Prim2SF 0) with (S754_zero false). unfold SF64sub.
  destruct (isFinite_cases x Hfin) as [[s ->]|(s & m & e & ->)].
  - by destruct s.
  - simpl. rewrite Z.min_id, shl_align_same. simpl. by rewrite Z.sub_diag.
Qed.

End FloatArith.

(** ** More on the distance *)

Section DistanceMore.

Lemma fold_left_ext {A B : Type} (f g : A → B → A) (l : list B) (s : A) :
  (∀ s x, f s x = g s x) → fold_left f l s = fold_left g l s.
Proof.
  intros Hfg. revert s. induction l as [|x l IH]; intros s; [done|].
  simpl. by rewrite Hfg, IH.
Qed.

Lemma square_fold_self (a : list float) :
  Forall (fun x => Number.isFinite x = true) a →
  fold_left (fun s '(x, y) => s + (x - y) * (x - y)) (zip a a) 0 = 0.
Proof.
  induction 1 as [|x a Hx Ha IH]; [done|].
  simpl. rewrite (sub_self x Hx). apply IH.
Qed.

End DistanceMore.

(** X1.  [dist] is symmetric, on all numbers (NaN and the infinities
    included) and on embeddings of any two lengths. *)
Theorem dist_symmetric (a b : list float) : dist a b = dist b a.
Proof.
  unfold dist. rewrite (Nat.min_comm (length b) (length a)). f_equal.
  apply fold_left_ext. intros s i. unfold dist_body. f_equal.
  apply sub_square_swap.
Qed.

(** X2.  An embedding whose coordinates are all finite is at distance 0 of
    itself. *)
Theorem dist_self_zero (a : list float) :
  Forall (fun x => Number.isFinite x = true) a → dist a a = 0.
Proof.
  intros Hfin. rewrite dist_euclidean. unfold euclidean.
  by rewrite square_fold_self.
Qed.

Lemma dist_self_zero_witness :
  Forall (fun x => Number.isFinite x = true) [0.25; -3; 0]
  ∧ dist [0.25; -3; 0] [0.25; -3; 0] = 0.
Proof.
  assert (Hfin : Forall (fun x => Number.isFinite x = true) [0.25; -3; 0])
    by (repeat constructor).
  split; [exact Hfin|exact (dist_self_zero _ Hfin)].
Defined.

(** Without the hypothesis the distance of an embedding to itself need not be
    0: an infinite coordinate gives NaN. *)
Example dist_self_infinite :
  dist [infinity] [infinity] = nan ∧ (dist [infinity] [infinity] <? THRESHOLD) = false.
Proof. split; reflexivity. Qed.

(** X3.  A detected descriptor that is an exact copy of a registered embedding
    (non-empty, with finite coordinates) is always matched: somebody is marked
    present for it, and its index is not in [unknown_faces]. *)
Theorem exact_copy_is_matched (students : list student) (facesData : list face)
    (descs : list (list float)) (i : nat) (f : face) (e : list float) :
  f ∈ facesData →
  f_embedding f = Some e →
  e ≠ [] →
  Forall (fun x => Number.isFinite x = true) e →
  descs !! i = Some e →
  let r := reconcile students facesData descs in
  (∃ uid, decide_face (build_by_user facesData) e = Match uid
          ∧ uid ∈ present_students r)
  ∧ i ∉ index <$> unknown_faces r.
Proof.
  intros Hf Hemb Hne Hfin Hi. simpl.
  assert (Hc : (f_user_id f, e) ∈ candidates (build_by_user facesData)).
  { apply candidates_build. by exists f, e. }
  assert (Hlt : (dist e e <? THRESHOLD) = true) by by rewrite dist_self_zero.
  destruct (close_candidate_matches _ e e _ Hc Hlt) as [uid Huid].
  split.
  - exists uid. split; [done|].
    rewrite reconcile_present, match_all_present. exists e.
    split; [|done]. apply list_elem_of_lookup. eauto.
  - intros [bd Hbd]%(unknown_index_face _ _ _ _ e Hi). congruence.
Qed.

Lemma exact_copy_is_matched_witness :
  let r := reconcile [S1; S2] scenario_faces [[0; 0; 1]; [0; 1; 0]] in
  (∃ uid, decide_face (build_by_user scenario_faces) [0; 1; 0] = Match uid
          ∧ uid ∈ present_students r)
  ∧ 1%nat ∉ index <$> unknown_faces r.
Proof.
  assert (Hf : Face 12 2 (Some [0; 1; 0]) ∈ scenario_faces) by (right; left).
  assert (Hne : [0; 1; 0] ≠ []) by discriminate.
  assert (Hfin : Forall (fun x => Number.isFinite x = true) [0; 1; 0])
    by (repeat constructor).
  exact (exact_copy_is_matched [S1; S2] scenario_faces [[0; 0; 1]; [0; 1; 0]] 1
           _ [0; 1; 0] Hf eq_refl Hne Hfin eq_refl).
Defined.

(** ** Ties between candidates *)

Section FirstBest.

Variable desc : list float.

Lemma scan_emb_first (seen : list (N * list float)) (st : scan_state) (uid : N)
    (e : list float) :
  scan_inv desc seen st →
  first_best desc seen st →
  first_best desc (seen ++ [(uid, e)]) (scan_emb desc uid st e).
Proof.
  intros [Hlow _] Hfirst. unfold scan_emb, first_best in *.
  destruct (dist desc e <? st.2) eqn:Hlt; simpl.
  - exists seen, e, []. split_and!; [done|done|].
    intros c Hc. by eapply leb_above; [apply Hlow|].
  - destruct st.1 as [uid0|]; [|done].
    destruct Hfirst as (pre & e0 & post & -> & Hd & Hpre).
    exists pre, e0, (post ++ [(uid, e)]).
    by rewrite <- app_assoc.
Qed.

Lemma scan_fold_first (cs seen : list (N * list float)) (st : scan_state) :
  scan_inv desc seen st →
  first_best desc seen st →
  first_best desc (seen ++ cs)
    (fold_left (fun st c => scan_emb desc c.1 st c.2) cs st).
Proof.
  revert seen st. induction cs as [|[uid e] cs IH]; intros seen st Hinv Hfirst.
  - by rewrite app_nil_r.
  - simpl. rewrite (cons_middle _ seen cs), app_assoc.
    apply IH; [by apply scan_emb_inv|by apply scan_emb_first].
Qed.

Lemma best_match_first (byUser : list (N * list (list float))) :
  first_best desc (candidates byUser) (best_match byUser desc).
Proof.
  rewrite best_match_candidates.
  apply (scan_fold_first (candidates byUser) []); [|done].
  split; [|done]. intros c Hc. by apply elem_of_nil in Hc.
Qed.

End FirstBest.

(** X4.  Ties go to the first candidate: the user a face is compared best
    with is the user of the first candidate embedding, in the order of the
    lookup, that reaches the minimum; every candidate before it is strictly
    farther (or at no distance, NaN), and none after it is closer. *)
Theorem first_closest_candidate_wins (byUser : list (N * list (list float)))
    (desc : list float) (uid : N) :
  (best_match byUser desc).1 = Some uid →
  ∃ pre e post,
    candidates byUser = pre ++ (uid, e) :: post
    ∧ dist desc e = (best_match byUser desc).2
    ∧ (∀ c, c ∈ pre → (dist desc c.2 <=? (best_match byUser desc).2) = false)
    ∧ (∀ c, c ∈ post → (dist desc c.2 <? (best_match byUser desc).2) = false).
Proof.
  intros Huid.
  pose proof (best_match_first desc byUser) as Hfirst.
  destruct (best_match_inv desc byUser) as [Hlow _].
  unfold first_best in Hfirst. rewrite Huid in Hfirst.
  destruct Hfirst as (pre & e & post & Hsplit & Hd & Hpre).
  exists pre, e, post. split_and!; [done..|].
  intros c Hc. apply Hlow. rewrite Hsplit, elem_of_app, elem_of_cons. auto.
Qed.

Lemma first_closest_candidate_wins_witness :
  let byUser := [(12%N, [[0; 1; 0]]); (11%N, [[1; 0; 0]; [1; 0; 0]]);
                 (13%N, [[1; 0; 0]])] in
  (best_match byUser [1; 0; 0]).1 = Some 11%N
  ∧ ∃ pre e post,
      candidates byUser = pre ++ (11%N, e) :: post
      ∧ dist [1; 0; 0] e = (best_match byUser [1; 0; 0]).2
      ∧ (∀ c, c ∈ pre
            → (dist [1; 0; 0] c.2 <=? (best_match byUser [1; 0; 0]).2) = false)
      ∧ (∀ c, c ∈ post
            → (dist [1; 0; 0] c.2 <? (best_match byUser [1; 0; 0]).2) = false).
Proof.
  split; [reflexivity|].
  exact (first_closest_candidate_wins
           [(12%N, [[0; 1; 0]]); (11%N, [[1; 0; 0]; [1; 0; 0]]);
            (13%N, [[1; 0; 0]])] [1; 0; 0] 11%N eq_refl).
Defined.

(** ** More on the loop over the detected faces *)

Section MatchLoopMore.

Variable byUser : list (N * list (list float)).

Lemma match_from_app (d1 d2 : list (list float)) (i : nat) (st : match_state) :
  match_from byUser i (d1 ++ d2) st
  = match_from byUser (i + length d1) d2 (match_from byUser i d1 st).
Proof.
  revert i st. induction d1 as [|desc d1 IH]; intros i st; simpl.
  - by rewrite Nat.add_0_r.
  - rewrite IH. f_equal. lia.
Qed.

Lemma match_from_prefix (descs : list (list float)) (i : nat) (st : match_state) :
  st.1 `prefix_of` (match_from byUser i descs st).1
  ∧ st.2 `prefix_of` (match_from byUser i descs st).2.
Proof.
  revert i st. induction descs as [|desc descs IH]; intros i st; [done|].
  simpl. destruct (IH (S i) (match_face byUser st i desc)) as [H1 H2].
  unfold match_face in *.
  destruct (decide_face byUser desc) as [uid|bd]; simpl in *.
  - split; [|done]. etrans; [|exact H1].
    unfold set_add. case_decide; [done|]. by apply prefix_app_r.
  - split; [done|]. etrans; [|exact H2]. by apply prefix_app_r.
Qed.

Lemma match_from_sorted (descs : list (list float)) (i : nat) (st : match_state) :
  Forall (fun u => (index u < i)%nat) st.2 →
  StronglySorted lt (index <$> st.2) →
  Forall (fun u => (index u < i + length descs)%nat) (match_from byUser i descs st).2
  ∧ StronglySorted lt (index <$> (match_from byUser i descs st).2).
Proof.
  revert i st. induction descs as [|desc descs IH]; intros i st Hlt Hsorted; simpl.
  - split; [|done]. eapply Forall_impl; [done|]. simpl. lia.
  - replace (i + S (length descs))%nat with (S i + length descs)%nat by lia.
    apply IH; unfold match_face; destruct (decide_face byUser desc) as [uid|bd];
      simpl.
    + eapply Forall_impl; [done|]. simpl. lia.
    + apply Forall_app. split; [|apply Forall_singleton; simpl; lia].
      eapply Forall_impl; [done|]. simpl. lia.
    + done.
    + rewrite fmap_app. apply StronglySorted_app_2; [|done|].
      * intros x1 x2 (u & -> & Hu)%list_elem_of_fmap Hx2.
        apply list_elem_of_singleton in Hx2 as ->. simpl.
        rewrite Forall_forall in Hlt. by apply Hlt.
      * simpl. repeat constructor.
Qed.

Lemma match_from_lengths (descs : list (list float)) (i : nat) (st : match_state) :
  length (match_from byUser i descs st).2
  = (length st.2
     + length (filter (fun d => is_match (decide_face byUser d) = false) descs))%nat
  ∧ (length (match_from byUser i descs st).1
     ≤ length st.1
       + length (filter (fun d => is_match (decide_face byUser d) = true) descs))%nat.
Proof.
  revert i st. induction descs as [|desc descs IH]; intros i st; simpl.
  - lia.
  - destruct (IH (S i) (match_face byUser st i desc)) as [H2 H1].
    rewrite H2, !filter_cons. unfold match_face in *.
    destruct (decide_face byUser desc) as [uid|bd]; simpl in *.
    + split; [done|].
      etrans; [exact H1|]. unfold set_add. case_decide; simpl; [lia|].
      rewrite length_app. simpl. lia.
    + rewrite length_app. simpl. split; [lia|exact H1].
Qed.

(** With no candidate every face is unknown, with a null distance. *)
Lemma match_from_no_candidate (descs : list (list float)) (i : nat)
    (st : match_state) :
  candidates byUser = [] →
  match_from byUser i descs st
  = (st.1, st.2 ++ imap (fun k _ => UnknownFace (i + k) None) descs).
Proof.
  intros Hnil. revert i st.
  induction descs as [|desc descs IH]; intros i st; simpl.
  - rewrite app_nil_r. by destruct st.
  - rewrite IH. unfold match_face.
    rewrite (no_candidate_unknown byUser desc Hnil). simpl.
    rewrite <- app_assoc, Nat.add_0_r. simpl. do 3 f_equal.
    apply imap_ext. intros k d _. simpl. f_equal. lia.
Qed.

End MatchLoopMore.

(** ** Looking up the embeddings of a user *)

Section ByUserLookup.

Implicit Types (byUser : list (N * list (list float))) (f : face).

Lemma by_user_get_snoc byUser (k uid : N) (v : list (list float)) :
  by_user_get (byUser ++ [(k, v)]) uid
  = match by_user_get byUser uid with
    | Some embs => Some embs
    | None => if decide (k = uid) then Some v else None
    end.
Proof.
  induction byUser as [|[k' embs] rest IH]; simpl; [done|].
  destruct (decide (k' = uid)); [done|apply IH].
Qed.

Lemma by_user_get_push byUser (k uid : N) (e : list float) :
  by_user_get (by_user_push byUser k e) uid
  = (fun embs => if decide (k = uid) then embs ++ [e] else embs)
    <$> by_user_get byUser uid.
Proof.
  induction byUser as [|[k' embs] rest IH]; [done|].
  unfold by_user_push in *. rewrite fmap_cons. simpl.
  destruct (decide (k' = k)) as [->|Hk]; simpl.
  - destruct (decide (k = uid)) as [->|Hne]; simpl; [done|apply IH].
  - destruct (decide (k' = uid)) as [->|Hne]; simpl; [|apply IH].
    by rewrite decide_False by congruence.
Qed.

Lemma by_user_push_keys byUser (k : N) (e : list float) :
  (by_user_push byUser k e).*1 = byUser.*1.
Proof.
  unfold by_user_push. induction byUser as [|[k' embs] rest IH]; [done|].
  rewrite !fmap_cons, IH. simpl. by case_decide.
Qed.

Lemma by_user_add_keys byUser f :
  NoDup byUser.*1 → NoDup (by_user_add byUser f).*1.
Proof.
  intros Hnd. unfold by_user_add.
  assert (Hnd1 : NoDup (match by_user_get byUser (f_user_id f) with
                        | Some _ => byUser
                        | None => byUser ++ [(f_user_id f, [])]
                        end).*1).
  { destruct (by_user_get byUser (f_user_id f)) eqn:Hget; [done|].
    rewrite fmap_app. apply NoDup_app. split_and!; [done| |apply NoDup_singleton].
    intros x Hx ->%list_elem_of_singleton.
    apply by_user_get_key in Hx as [? Hx]. simpl in Hx. congruence. }
  destruct (f_embedding f) as [emb|]; [|done].
  case_decide; [done|]. by rewrite by_user_push_keys.
Qed.

Lemma embeddings_of_snoc (seen : list face) f (uid : N) :
  embeddings_of (seen ++ [f]) uid
  = embeddings_of seen uid
    ++ (if decide (f_user_id f = uid) then
          match f_embedding f with
          | Some e => if decide (length e = 0%nat) then [] else [e]
          | None => []
          end
        else []).
Proof.
  unfold embeddings_of. rewrite filter_app, omap_app. f_equal.
  rewrite filter_cons, filter_nil. case_decide; [|done].
  simpl. destruct (f_embedding f) as [e|]; [|done]. by case_decide.
Qed.

Lemma embeddings_of_no_row (seen : list face) (uid : N) :
  uid ∉ f_user_id <$> seen → embeddings_of seen uid = [].
Proof.
  intros Hno. unfold embeddings_of.
  replace (filter (fun f => f_user_id f = uid) seen) with (@nil face); [done|].
  symmetry. induction seen as [|f seen IH]; [done|].
  rewrite fmap_cons, not_elem_of_cons in Hno. destruct Hno as [Hf Hseen].
  rewrite filter_cons, decide_False by congruence. by apply IH.
Qed.

Lemma by_user_add_get (seen : list face) byUser f :
  (∀ uid, by_user_get byUser uid
          = if decide (uid ∈ f_user_id <$> seen)
            then Some (embeddings_of seen uid) else None) →
  ∀ uid, by_user_get (by_user_add byUser f) uid
         = if decide (uid ∈ f_user_id <$> (seen ++ [f]))
           then Some (embeddings_of (seen ++ [f]) uid) else None.
Proof.
  intros Hinv uid. unfold by_user_add.
  set (byUser1 := match by_user_get byUser (f_user_id f) with
                  | Some _ => byUser
                  | None => byUser ++ [(f_user_id f, [])]
                  end).
  assert (H1 : by_user_get byUser1 uid
               = if decide (uid ∈ f_user_id <$> (seen ++ [f]))
                 then Some (embeddings_of seen uid) else None).
  { subst byUser1. rewrite fmap_app. simpl.
    pose proof (Hinv (f_user_id f)) as Hf. pose proof (Hinv uid) as Hu.
    destruct (by_user_get byUser (f_user_id f)) as [embs|] eqn:Hget.
    - rewrite Hu. destruct (decide (f_user_id f ∈ f_user_id <$> seen)); [|done].
      apply decide_ext. rewrite elem_of_app, list_elem_of_singleton.
      split; [by left|]. by intros [?| ->].
    - destruct (decide (f_user_id f ∈ f_user_id <$> seen)) as [|Hno]; [done|].
      rewrite by_user_get_snoc, Hu.
      destruct (decide (uid ∈ f_user_id <$> seen)) as [Hin|Hnin].
      + rewrite decide_True; [done|]. apply elem_of_app. by left.
      + destruct (decide (f_user_id f = uid)) as [<-|Hne].
        * rewrite decide_True.
          -- by rewrite embeddings_of_no_row.
          -- apply elem_of_app. right. by left.
        * rewrite decide_False; [done|].
          rewrite elem_of_app, list_elem_of_singleton. naive_solver. }
  rewrite embeddings_of_snoc.
  destruct (f_embedding f) as [emb|].
  - destruct (decide (length emb = 0%nat)) as [Hlen|Hlen].
    + rewrite H1. destruct (decide (uid ∈ _)); [|done]. f_equal.
      destruct (decide (f_user_id f = uid)); by rewrite app_nil_r.
    + rewrite by_user_get_push, H1. destruct (decide (uid ∈ _)); [|done].
      simpl. f_equal.
      destruct (decide (f_user_id f = uid)); [done|by rewrite app_nil_r].
  - rewrite H1. destruct (decide (uid ∈ _)); [|done]. f_equal.
    destruct (decide (f_user_id f = uid)); by rewrite app_nil_r.
Qed.

Lemma by_user_fold_get (rest seen : list face) byUser :
  NoDup byUser.*1 →
  (∀ uid, by_user_get byUser uid
          = if decide (uid ∈ f_user_id <$> seen)
            then Some (embeddings_of seen uid) else None) →
  NoDup (fold_left by_user_add rest byUser).*1
  ∧ ∀ uid, by_user_get (fold_left by_user_add rest byUser) uid
           = if decide (uid ∈ f_user_id <$> (seen ++ rest))
             then Some (embeddings_of (seen ++ rest) uid) else None.
Proof.
  revert seen byUser. induction rest as [|f rest IH]; intros seen byUser Hnd Hinv.
  - by rewrite app_nil_r.
  - simpl. rewrite (cons_middle f seen rest), app_assoc.
    apply IH; [by apply by_user_add_keys|by apply by_user_add_get].
Qed.

End ByUserLookup.

(** X5.  The lookup built from the fetched rows has one entry per user with a
    row, and reading it gives back what was put in: for a user with a row,
    the non-empty array embeddings of that user's rows, in the order of the
    rows (an empty list when none qualifies); for any other user, nothing. *)
Theorem by_user_lookup (facesData : list face) :
  NoDup (build_by_user facesData).*1
  ∧ ∀ uid, by_user_get (build_by_user facesData) uid
           = if decide (uid ∈ f_user_id <$> facesData)
             then Some (embeddings_of facesData uid) else None.
Proof.
  apply (by_user_fold_get facesData [] []); [apply NoDup_nil_2|done].
Qed.

Lemma unknown_faces_count (students : list student) (facesData : list face)
    (descs : list (list float)) :
  length (unknown_faces (reconcile students facesData descs))
  = length (filter (fun d => is_match (decide_face (build_by_user facesData) d)
                             = false) descs)
  ∧ (length (present_students (reconcile students facesData descs))
     ≤ length (filter (fun d => is_match (decide_face (build_by_user facesData) d)
                                = true) descs))%nat.
Proof.
  rewrite reconcile_present, reconcile_unknown. unfold match_all.
  apply (match_from_lengths (build_by_user facesData) descs 0 ([], [])).
Qed.

(** X6.  [unknown_faces] lists the unmatched faces in detection order: its
    indices increase strictly and stay below the number of descriptors; there
    is one entry per face that is no match, and [present_students] is never
    longer than the number of faces that are one -- so the two lengths
    together never exceed the number of detected faces. *)
Theorem unknown_faces_in_detection_order (students : list student)
    (facesData : list face) (descs : list (list float)) :
  let r := reconcile students facesData descs in
  let byUser := build_by_user facesData in
  StronglySorted lt (index <$> unknown_faces r)
  ∧ Forall (fun u => (index u < length descs)%nat) (unknown_faces r)
  ∧ length (unknown_faces r)
    = length (filter (fun d => is_match (decide_face byUser d) = false) descs)
  ∧ (length (present_students r)
     ≤ length (filter (fun d => is_match (decide_face byUser d) = true) descs))%nat
  ∧ (length (present_students r) + length (unknown_faces r) ≤ length descs)%nat.
Proof.
  simpl. rewrite reconcile_present, reconcile_unknown. unfold match_all.
  destruct (match_from_sorted (build_by_user facesData) descs 0 ([], []))
    as [Hlt Hsorted]; [apply Forall_nil_2|constructor|].
  destruct (match_from_lengths (build_by_user facesData) descs 0 ([], []))
    as [Hunknown Hpresent].
  simpl in *. split_and!; [done..|].
  rewrite Hunknown.
  pose proof (filter_app_complement
    (fun d => is_match (decide_face (build_by_user facesData) d) = true) descs)
    as Hperm.
  apply Permutation_length in Hperm. rewrite length_app in Hperm.
  rewrite <- Hperm.
  assert (Heq : filter (fun d => is_match (decide_face (build_by_user facesData) d)
                                 = false) descs
                = filter (fun d => ¬ is_match (decide_face (build_by_user facesData) d)
                                     = true) descs).
  { apply list_filter_iff. intros d.
    by destruct (is_match (decide_face (build_by_user facesData) d)). }
  rewrite Heq. lia.
Qed.

(** X7.  With no usable registered embedding (no row at all, or rows whose
    embeddings are empty or not arrays) nobody is present, the whole roster
    is absent, and every detected face is unknown with a null distance, in
    detection order. *)
Theorem no_registered_embedding_all_unknown (students : list student)
    (facesData : list face) (descs : list (list float)) :
  Forall (fun f => default [] (f_embedding f) = []) facesData →
  reconcile students facesData descs
  = Attendance [] (s_user_id <$> students)
      (imap (fun i _ => UnknownFace i None) descs).
Proof.
  intros Hrows.
  assert (Hnil : candidates (build_by_user facesData) = []).
  { apply elem_of_nil_inv. intros c (f & e & Hf & Hemb & Hne & _)%candidates_build.
    rewrite Forall_forall in Hrows. specialize (Hrows f Hf).
    rewrite Hemb in Hrows. simpl in Hrows. contradiction. }
  unfold reconcile, match_all.
  rewrite (match_from_no_candidate _ descs 0 ([], []) Hnil). simpl.
  by rewrite filter_not_in_nil.
Qed.

Lemma no_registered_embedding_all_unknown_witness :
  Forall (fun f => default [] (f_embedding f) = [])
    [Face 11 1 (Some []); Face 12 2 None]
  ∧ reconcile [S1; S2] [Face 11 1 (Some []); Face 12 2 None] [[1; 0; 0]; [0; 1; 0]]
    = Attendance [] [11%N; 12%N] [UnknownFace 0 None; UnknownFace 1 None].
Proof.
  assert (Hrows : Forall (fun f => default [] (f_embedding f) = [])
                    [Face 11 1 (Some []); Face 12 2 None])
    by (repeat constructor).
  split; [exact Hrows|].
  exact (no_registered_embedding_all_unknown [S1; S2] _ [[1; 0; 0]; [0; 1; 0]] Hrows).
Defined.

(** X8.  The order of the detected faces does not matter for attendance: a
    permutation of the descriptors gives the same present users (up to the
    order they were added in), the same [absent_students] and as many unknown
    faces. *)
Theorem detection_order_irrelevant (students : list student)
    (facesData : list face) (descs descs' : list (list float)) :
  descs ≡ₚ descs' →
  let r := reconcile students facesData descs in
  let r' := reconcile students facesData descs' in
  present_students r ≡ₚ present_students r'
  ∧ absent_students r = absent_students r'
  ∧ length (unknown_faces r) = length (unknown_faces r').
Proof.
  intros Hperm. simpl.
  assert (Hsame : ∀ x, x ∈ present_students (reconcile students facesData descs)
                       ↔ x ∈ present_students (reconcile students facesData descs')).
  { intros x. rewrite !reconcile_present, !match_all_present.
    by setoid_rewrite Hperm. }
  split_and!.
  - apply NoDup_Permutation; [| |done];
      rewrite reconcile_present; apply match_all_present_NoDup.
  - rewrite !reconcile_absent. apply list_filter_iff. intros x. by rewrite Hsame.
  - destruct (unknown_faces_count students facesData descs) as [-> _].
    destruct (unknown_faces_count students facesData descs') as [-> _].
    by rewrite Hperm.
Qed.

Lemma detection_order_irrelevant_witness :
  let r := reconcile [S1; S2] scenario_faces [[0; 1; 0]; [0; 0; 1]; [1; 0; 0]] in
  let r' := reconcile [S1; S2] scenario_faces [[1; 0; 0]; [0; 1; 0]; [0; 0; 1]] in
  present_students r = [12%N; 11%N]
  ∧ present_students r' = [11%N; 12%N]
  ∧ present_students r ≡ₚ present_students r'
  ∧ absent_students r = absent_students r'
  ∧ length (unknown_faces r) = length (unknown_faces r').
Proof.
  assert (Hperm : [[0; 1; 0]; [0; 0; 1]; [1; 0; 0]]
                  ≡ₚ [[1; 0; 0]; [0; 1; 0]; [0; 0; 1]]).
  { etrans; [apply Permutation_cons_append|]. simpl.
    etrans; [apply Permutation_cons_append|]. done. }
  split_and!; [vm_compute; reflexivity|vm_compute; reflexivity|..];
    apply (detection_order_irrelevant [S1; S2] scenario_faces _ _ Hperm).
Defined.

(** X9.  More detected faces never take a present student away: after the
    descriptors [descs ++ more] the present users begin with those after
    [descs], the unknown faces begin with those after [descs], and every
    absent student was absent already. *)
Theorem more_faces_more_present (students : list student)
    (facesData : list face) (descs more : list (list float)) :
  let r := reconcile students facesData descs in
  let r' := reconcile students facesData (descs ++ more) in
  present_students r `prefix_of` present_students r'
  ∧ unknown_faces r `prefix_of` unknown_faces r'
  ∧ absent_students r' ⊆ absent_students r.
Proof.
  simpl. rewrite !reconcile_absent, !reconcile_present, !reconcile_unknown.
  unfold match_all. rewrite match_from_app.
  destruct (match_from_prefix (build_by_user facesData) more (0 + length descs)
              (match_from (build_by_user facesData) 0 descs ([], [])))
    as [Hp Hu].
  split_and!; [done..|].
  intros x [Hx Hin]%list_elem_of_filter. apply list_elem_of_filter.
  split; [|done]. intros Hold. apply Hx.
  destruct Hp as [k ->]. apply elem_of_app. by left.
Qed.

(** ** Counting the roster *)

Section Counting.

Lemma present_in_roster (students : list student) (facesData : list face)
    (descs : list (list float)) (x : N) :
  Forall (fun f => f_user_id f ∈ s_user_id <$> students) facesData →
  x ∈ present_students (reconcile students facesData descs) →
  x ∈ s_user_id <$> students.
Proof.
  intros Hrows (f & _ & _ & Hf & <- & _)%present_matched_row.
  rewrite Forall_forall in Hrows. by apply Hrows.
Qed.

Lemma partition_lengths (present roster : list N) :
  NoDup present →
  NoDup roster →
  (∀ x, x ∈ present → x ∈ roster) →
  (length present + length (filter (fun id => id ∉ present) roster))%nat
  = length roster.
Proof.
  intros Hp Hr Hsub.
  pose proof (filter_app_complement (fun id => id ∈ present) roster) as Hperm.
  apply Permutation_length in Hperm. rewrite length_app in Hperm.
  rewrite <- Hperm. f_equal.
  apply Permutation_length, NoDup_Permutation; [done|by apply NoDup_filter|].
  intros x. rewrite list_elem_of_filter. naive_solver.
Qed.

End Counting.

(** X10.  When the user ids of the roster are distinct (the column is UNIQUE)
    and every fetched row of [faces_data] carries the [user_id] of a roster
    student, the two counts of the successful response add up to the size of
    the roster. *)
Theorem response_counts_cover_roster (req : request) (db : database) (b : body) :
  is_options req = false →
  json req = Some b →
  let students := class_roster db (b_classId b) in
  NoDup (s_user_id <$> students) →
  Forall (fun f => f_user_id f ∈ s_user_id <$> students)
    (faces_of db (s_id <$> students)) →
  ∃ presentCount absentCount,
    (serve healthy req db).1 = Success presentCount absentCount
    ∧ (presentCount + absentCount)%nat = length students.
Proof.
  intros Hopt Hjson students Hnd Hrows.
  rewrite (serve_healthy req db b Hopt Hjson). simpl.
  eexists _, _. split; [done|].
  rewrite reconcile_absent.
  rewrite partition_lengths; [by rewrite length_fmap| |done|].
  - rewrite reconcile_present. apply match_all_present_NoDup.
  - intros x. by apply present_in_roster.
Qed.

Lemma response_counts_cover_roster_witness :
  (serve healthy (post [[1; 0; 0]; [0; 0; 1]]) scenario_db).1 = Success 1 1
  ∧ ∃ presentCount absentCount,
      (serve healthy (post [[1; 0; 0]; [0; 0; 1]]) scenario_db).1
      = Success presentCount absentCount
      ∧ (presentCount + absentCount)%nat = length (class_roster scenario_db "CSE-A").
Proof.
  split; [vm_compute; reflexivity|].
  assert (Hnd : NoDup (s_user_id <$> class_roster scenario_db "CSE-A")).
  { apply (bool_decide_unpack _). vm_compute. exact I. }
  assert (Hrows : Forall (fun f => f_user_id f
                                   ∈ s_user_id <$> class_roster scenario_db "CSE-A")
                    (faces_of scenario_db (s_id <$> class_roster scenario_db "CSE-A"))).
  { apply (bool_decide_unpack _). vm_compute. exact I. }
  exact (response_counts_cover_roster (post [[1; 0; 0]; [0; 0; 1]]) scenario_db
           (Body 7 "CSE-A" (Some [[1; 0; 0]; [0; 0; 1]])) eq_refl eq_refl Hnd Hrows).
Defined.

(** ** What a run writes *)

(** X11.  No run changes the tables [students] and [faces_data], nor creates
    or deletes a photo.  A run that answers 200 has added exactly one row to
    [attendance_records], for the photo and class of its request, whose
    lengths are the counts of the response; any other run (preflight, 500)
    has added none. *)
Theorem run_adds_a_row_only_on_success (up : upstream) (req : request)
    (db : database) :
  tbl_students (after up req db) = tbl_students db
  ∧ tbl_faces_data (after up req db) = tbl_faces_data db
  ∧ dom (tbl_photos (after up req db)) = dom (tbl_photos db)
  ∧ match (serve up req db).1 with
    | Success presentCount absentCount =>
        ∃ b att,
          json req = Some b
          ∧ tbl_attendance_records (after up req db)
            = tbl_attendance_records db
                ++ [AttendanceRecord (b_photoId b) (b_classId b) att]
          ∧ presentCount = length (present_students att)
          ∧ absentCount = length (absent_students att)
    | _ => tbl_attendance_records (after up req db) = tbl_attendance_records db
    end.
Proof.
  unfold after, serve, process_attendance, req_json.
  destruct (is_options req); [done|].
  destruct (json req) as [b|]; [|done].
  destruct up as [[|] [|] [|]]; simpl; rewrite ?dom_alter_L;
    split_and!; try done.
  by eexists b, _.
Qed.

(** X12.  A run touches no photo but the one of its request: every other
    row of [photos] is as before, whatever the outcome. *)
Theorem run_touches_its_photo_only (up : upstream) (req : request)
    (db : database) (photoId : N) :
  (∀ b, json req = Some b → photoId ≠ b_photoId b) →
  tbl_photos (after up req db) !! photoId = tbl_photos db !! photoId.
Proof.
  intros Hother. unfold after, serve, process_attendance, req_json.
  destruct (is_options req); [done|].
  destruct (json req) as [b|]; [|done].
  specialize (Hother b eq_refl).
  destruct up as [[|] [|] [|]]; simpl; by rewrite ?lookup_alter_ne.
Qed.

Lemma run_touches_its_photo_only_witness :
  let db := Database [S1; S2] scenario_faces
              {[ 7%N := Photo pending 0; 8%N := Photo completed 3 ]} [] in
  tbl_photos (after healthy (post [[1; 0; 0]]) db) !! 8%N = Some (Photo completed 3)
  ∧ tbl_photos (after healthy (post [[1; 0; 0]]) db) !! 7%N = Some (Photo completed 1).
Proof.
  split; [|vm_compute; reflexivity].
  rewrite (run_touches_its_photo_only healthy (post [[1; 0; 0]])
             (Database [S1; S2] scenario_faces
                {[ 7%N := Photo pending 0; 8%N := Photo completed 3 ]} []) 8%N).
  - vm_compute. reflexivity.
  - intros b [= <-]. simpl. lia.
Defined.

(** X13.  A run that answers 200 leaves its photo [completed], with
    [faces_detected] the number of descriptors of the request (0 when the
    field is not an array); a photo that does not exist is not created. *)
Theorem success_completes_photo (up : upstream) (req : request) (db : database)
    (b : body) (presentCount absentCount : nat) :
  json req = Some b →
  (serve up req db).1 = Success presentCount absentCount →
  tbl_photos (after up req db) !! b_photoId b
  = (fun _ => Photo completed (length (default [] (b_descriptors b))))
    <$> tbl_photos db !! b_photoId b.
Proof.
  intros Hjson. unfold after, serve, process_attendance, req_json.
  rewrite Hjson. destruct (is_options req); [done|].
  destruct up as [[|] [|] [|]]; simpl; try done.
  intros _. rewrite !lookup_alter_eq.
  by destruct (tbl_photos db !! b_photoId b).
Qed.

Lemma success_completes_photo_witness :
  (serve healthy (post [[1; 0; 0]; [0; 0; 1]]) scenario_db).1 = Success 1 1
  ∧ tbl_photos (after healthy (post [[1; 0; 0]; [0; 0; 1]]) scenario_db) !! 7%N
    = (fun _ => Photo completed 2) <$> tbl_photos scenario_db !! 7%N.
Proof.
  assert (Hok : (serve healthy (post [[1; 0; 0]; [0; 0; 1]]) scenario_db).1
                = Success 1 1) by (vm_compute; reflexivity).
  split; [exact Hok|].
  exact (success_completes_photo healthy (post [[1; 0; 0]; [0; 0; 1]]) scenario_db
           (Body 7 "CSE-A" (Some [[1; 0; 0]; [0; 0; 1]])) 1 1 eq_refl Hok).
Defined.

(** X14.  For a class with no registered student the run succeeds with both
    counts 0: nobody is present or absent, and every detected face is
    recorded unknown with a null distance. *)
Theorem empty_class_all_unknown (req : request) (db : database) (b : body) :
  is_options req = false →
  json req = Some b →
  class_roster db (b_classId b) = [] →
  (serve healthy req db).1 = Success 0 0
  ∧ tbl_attendance_records (after healthy req db)
    = tbl_attendance_records db
        ++ [AttendanceRecord (b_photoId b) (b_classId b)
              (Attendance [] []
                 (imap (fun i _ => UnknownFace i None)
                    (default [] (b_descriptors b))))].
Proof.
  intros Hopt Hjson Hempty. unfold after.
  rewrite (serve_healthy req db b Hopt Hjson). simpl. rewrite Hempty. simpl.
  assert (Hfaces : faces_of db [] = []).
  { unfold faces_of. induction (tbl_faces_data db) as [|f fs IH]; [done|].
    rewrite filter_cons, decide_False; [done|]. apply not_elem_of_nil. }
  rewrite Hfaces. unfold reconcile, match_all.
  by rewrite (match_from_no_candidate (build_by_user []) _ 0 ([], []) eq_refl).
Qed.

Lemma empty_class_all_unknown_witness :
  class_roster scenario_db "CSE-Z" = []
  ∧ (serve healthy (Request false (Some (Body 7 "CSE-Z" (Some [[1; 0; 0]]))))
       scenario_db).1 = Success 0 0
  ∧ tbl_attendance_records
      (after healthy (Request false (Some (Body 7 "CSE-Z" (Some [[1; 0; 0]]))))
         scenario_db)
    = [AttendanceRecord 7 "CSE-Z" (Attendance [] [] [UnknownFace 0 None])].
Proof.
  assert (Hempty : class_roster scenario_db "CSE-Z" = []) by reflexivity.
  split; [exact Hempty|].
  exact (empty_class_all_unknown
           (Request false (Some (Body 7 "CSE-Z" (Some [[1; 0; 0]]))))
           scenario_db (Body 7 "CSE-Z" (Some [[1; 0; 0]])) eq_refl eq_refl Hempty).
Defined.

(** ** The simulated variant *)

Section SimulationProps.

Lemma filter_random_sublist (random : nat → float) (n : nat)
    (students : list student) :
  Simulation.filter_random random n students `sublist_of` students.
Proof.
  revert n. induction students as [|s rest IH]; intros n; simpl; [done|].
  destruct (0.5 <? random n); [by apply sublist_skip|by apply sublist_cons].
Qed.

Lemma simulate_present_sublist (random : nat → float) (students : list student) :
  present_students (Simulation.simulate random students)
  `sublist_of` (s_user_id <$> students).
Proof. apply fmap_sublist, filter_random_sublist. Qed.

Lemma simulation_roster_cover (random : nat → float) (students : list student) :
  ∀ x, x ∈ present_students (Simulation.simulate random students)
       ∨ x ∈ absent_students (Simulation.simulate random students)
       ↔ x ∈ s_user_id <$> students.
Proof.
  intros x. unfold Simulation.simulate at 2. simpl.
  rewrite list_elem_of_filter. split.
  - intros [Hx|[_ ?]]; [|done].
    exact (sublist_subseteq _ _ (simulate_present_sublist random students) x Hx).
  - intros Hx.
    destruct (decide (x ∈ present_students (Simulation.simulate random students)));
      auto.
Qed.

End SimulationProps.

(** X15.  Whatever numbers are drawn, the simulated marking partitions the
    roster: the present students are a subsequence of the roster, the absent
    ones are the rest, nobody is in both lists, there is no unknown face, and
    with distinct user ids the two lengths add up to the size of the
    roster. *)
Theorem simulation_partitions_roster (random : nat → float)
    (students : list student) :
  let r := Simulation.simulate random students in
  present_students r `sublist_of` (s_user_id <$> students)
  ∧ (∀ x, ¬ (x ∈ present_students r ∧ x ∈ absent_students r))
  ∧ (∀ x, x ∈ present_students r ∨ x ∈ absent_students r
          ↔ x ∈ s_user_id <$> students)
  ∧ unknown_faces r = []
  ∧ (NoDup (s_user_id <$> students) →
     (length (present_students r) + length (absent_students r))%nat
     = length students).
Proof.
  simpl. pose proof (simulate_present_sublist random students) as Hsub.
  split_and!; [done| |apply simulation_roster_cover|done|].
  - intros x [Hp Ha]. unfold Simulation.simulate in *. simpl in *.
    apply list_elem_of_filter in Ha as [Hno _]. by apply Hno.
  - intros Hnd.
    change (absent_students (Simulation.simulate random students))
      with (filter (fun id => id ∉ present_students
                                     (Simulation.simulate random students))
              (s_user_id <$> students)).
    rewrite partition_lengths; [by rewrite length_fmap| |done|].
    + exact (sublist_NoDup _ _ Hnd Hsub).
    + intros x Hx. exact (sublist_subseteq _ _ Hsub x Hx).
Qed.

(** X16.  A run of the simulated handler that answers 200 has recorded the
    simulated marking of the class roster -- a partition of the roster,
    whatever [faces_data] holds -- and has set [faces_detected] to the number
    of students marked present; any other run has recorded nothing. *)
Theorem simulated_run_records_partition (random : nat → float) (up : upstream)
    (req : request) (db : database) :
  match (Simulated.serve random up req db).1 with
  | Success presentCount absentCount =>
      ∃ b, json req = Some b
        ∧ let att := Simulation.simulate random (class_roster db (b_classId b)) in
          tbl_attendance_records (Simulated.serve random up req db).2
          = tbl_attendance_records db
              ++ [AttendanceRecord (b_photoId b) (b_classId b) att]
          ∧ presentCount = length (present_students att)
          ∧ absentCount = length (absent_students att)
          ∧ (∀ x, x ∈ present_students att ∨ x ∈ absent_students att
                  ↔ x ∈ s_user_id <$> class_roster db (b_classId b))
          ∧ tbl_photos (Simulated.serve random up req db).2 !! b_photoId b
            = (fun _ => Photo completed presentCount)
              <$> tbl_photos db !! b_photoId b
  | _ => tbl_attendance_records (Simulated.serve random up req db).2
         = tbl_attendance_records db
  end.
Proof.
  unfold Simulated.serve, Simulated.process_attendance, req_json.
  destruct (is_options req); [done|].
  destruct (json req) as [b|]; [|done].
  destruct up as [[|] [|] [|]]; simpl; try done.
  exists b. split; [done|]. split_and!; try done.
  - apply (simulation_roster_cover random (class_roster db (b_classId b))).
  - rewrite !lookup_alter_eq. by destruct (tbl_photos db !! b_photoId b).
Qed.

(** ** The client utilities *)

(** X17.  [isFaceMatch] is monotone: a similarity below one that matches
    matches too, and what matches under a threshold matches under a larger
    one.  NaN never matches, as a similarity or as a threshold, and the
    default threshold is the one of the edge function. *)
Theorem isFaceMatch_monotone (similarity closer t wider : float)
    (threshold : option float) :
  (isFaceMatch similarity threshold = true → (closer <? similarity) = true →
   isFaceMatch closer threshold = true)
  ∧ (isFaceMatch similarity (Some t) = true → (t <? wider) = true →
     isFaceMatch similarity (Some wider) = true)
  ∧ isFaceMatch nan threshold = false
  ∧ isFaceMatch similarity (Some nan) = false
  ∧ isFaceMatch similarity None = (similarity <? THRESHOLD).
Proof.
  unfold isFaceMatch. split_and!.
  - intros Hm Hc. by eapply ltb_trans.
  - simpl. intros Hm Ht. by eapply ltb_trans.
  - by rewrite ltb_spec.
  - simpl. rewrite ltb_spec. change (Prim2SF nan) with S754_nan.
    by destruct (Prim2SF similarity) as [[|]|[|]| |].
  - done.
Qed.

Section Loader.

Import FaceDetection.

Lemma run_call_loaded (c : call) (st : loader) :
  modelsLoaded st = true → run_call c st = (true, st).
Proof.
  intros Hloaded.
  destruct c; simpl;
    unfold loadFaceDetectionModels, detectFaceAndGetDescriptor,
      detectAllFacesAndGetDescriptors; by rewrite Hloaded.
Qed.

Lemma run_calls_loaded (calls : list call) (st : loader) :
  modelsLoaded st = true →
  run_calls calls st = st ∧ Forall (fun c => (run_call c st).1 = true) calls.
Proof.
  intros Hloaded. unfold run_calls.
  induction calls as [|c calls [IH1 IH2]]; [done|].
  simpl. rewrite (run_call_loaded c st Hloaded). simpl. split; [done|].
  constructor; [|done]. by rewrite (run_call_loaded c st Hloaded).
Qed.

End Loader.

(** X18.  The detection models are loaded once: a call of
    [loadFaceDetectionModels] or of one of the two detection functions that
    returns leaves [modelsLoaded] set, and from then on no call requests the
    models again or throws; a call that throws has requested them once and
    leaves the flag unset, so the next call tries again. *)
Theorem models_loaded_once (c : FaceDetection.call) (st : FaceDetection.loader)
    (later : list FaceDetection.call) :
  let st1 := (FaceDetection.run_call c st).2 in
  ((FaceDetection.run_call c st).1 = true →
     FaceDetection.modelsLoaded st1 = true
     ∧ FaceDetection.run_calls later st1 = st1
     ∧ Forall (fun c' => (FaceDetection.run_call c' st1).1 = true) later)
  ∧ ((FaceDetection.run_call c st).1 = false →
       FaceDetection.modelsLoaded st = false
       ∧ st1 = FaceDetection.Loader false (S (FaceDetection.fetches st))).
Proof.
  simpl. split.
  - intros Hok.
    assert (Hloaded : FaceDetection.modelsLoaded (FaceDetection.run_call c st).2
                      = true).
    { destruct c as [[|]|[|] d|[|] ds], st as [[|] n]; simpl in *; done. }
    split; [done|]. by apply run_calls_loaded.
  - intros Hfail.
    destruct c as [[|]|[|] d|[|] ds], st as [[|] n]; simpl in *; done.
Qed.

(** ** The history page *)

(** X19.  A student of the roster finds the record of a run in the history:
    the record passes the filter of the student's query, the badge is never
    N/A, it says Present exactly when some detected face was matched to the
    student, and the status of the CSV export agrees with the badge. *)
Theorem roster_student_sees_status (students : list student)
    (facesData : list face) (descs : list (list float)) (uid : N) :
  uid ∈ s_user_id <$> students →
  let r := reconcile students facesData descs in
  History.visible_to uid r
  ∧ History.getStatusForStudent uid r ≠ History.NotApplicable
  ∧ (History.getStatusForStudent uid r = History.Present
     ↔ ∃ desc, desc ∈ descs
               ∧ decide_face (build_by_user facesData) desc = Match uid)
  ∧ (History.csv_status uid r = "Present"
     ↔ History.getStatusForStudent uid r = History.Present)
  ∧ (History.csv_status uid r = "Absent"
     ↔ History.getStatusForStudent uid r = History.Absent).
Proof.
  intros Hroster. simpl.
  pose proof (roster_present_or_absent students facesData descs uid Hroster)
    as Hvis.
  pose proof (present_absent_disjoint students facesData descs uid) as Hdisj.
  assert (Hmatch : uid ∈ present_students (reconcile students facesData descs)
                   ↔ ∃ desc, desc ∈ descs
                        ∧ decide_face (build_by_user facesData) desc = Match uid).
  { rewrite reconcile_present. apply match_all_present. }
  unfold History.visible_to, History.getStatusForStudent, History.csv_status.
  rewrite <- Hmatch.
  destruct (decide (uid ∈ present_students (reconcile students facesData descs)))
    as [Hp|Hp];
    destruct (decide (uid ∈ absent_students (reconcile students facesData descs)))
      as [Ha|Ha];
    split_and!; try done; try (split; [done|by intros ?]); try tauto.
Qed.

Lemma roster_student_sees_status_witness :
  let r := reconcile [S1; S2] scenario_faces [[1; 0; 0]] in
  History.getStatusForStudent 11 r = History.Present
  ∧ History.getStatusForStudent 12 r = History.Absent
  ∧ History.visible_to 12 r
  ∧ (History.csv_status 12 r = "Absent"
     ↔ History.getStatusForStudent 12 r = History.Absent).
Proof.
  assert (Hroster : 12%N ∈ s_user_id <$> [S1; S2]) by (right; left).
  destruct (roster_student_sees_status [S1; S2] scenario_faces [[1; 0; 0]] 12%N
              Hroster) as (Hvis & _ & _ & _ & Hcsv).
  split_and!; [vm_compute; reflexivity|vm_compute; reflexivity|exact Hvis|exact Hcsv].
Defined.

(** ** Taking attendance from the client page *)

Section Client.

Import TakeAttendance.

Variable trim : string → string.

Lemma wait_not_failed (n : nat) (db : database) (photoId : N)
    (status : analysis_status) :
  status_of db photoId ≠ Some failed →
  status ≠ failed →
  wait n db photoId status ≠ failed.
Proof.
  intros Hdb. revert status. induction n as [|n IH]; intros status Hs; [done|].
  simpl.
  assert (Hread : default pending (status_of db photoId) ≠ failed).
  { destruct (status_of db photoId) as [s|]; simpl; [congruence|done]. }
  destruct (terminal _); [done|by apply IH].
Qed.

Lemma insert_photo_pending (w : world) (db db1 : database) :
  insert_photo w db = Some db1 →
  tbl_photos db !! new_photo_id w = None
  ∧ db1 = Database (tbl_students db) (tbl_faces_data db)
            (<[new_photo_id w := Photo pending 0]> (tbl_photos db))
            (tbl_attendance_records db).
Proof.
  unfold insert_photo. destruct (insert_fails w); [done|].
  destruct (tbl_photos db !! new_photo_id w) eqn:Hlook; [done|].
  by intros [= <-].
Qed.

Lemma first_record_fresh (db : database) (photoId : N) (r : attendance_record) :
  Forall (fun r' => r_photo_id r' ≠ photoId) (tbl_attendance_records db) →
  r_photo_id r = photoId →
  head (filter (fun r' => r_photo_id r' = photoId)
          (tbl_attendance_records db ++ [r])) = Some r.
Proof.
  intros Hfresh Hr. rewrite filter_app.
  replace (filter (fun r' => r_photo_id r' = photoId) (tbl_attendance_records db))
    with (@nil attendance_record).
  - simpl. rewrite filter_cons, decide_True by done. done.
  - symmetry. induction Hfresh as [|r' rs Hr' _ IH]; [done|].
    by rewrite filter_cons, decide_False.
Qed.

(** The [try] block never reaches the toast of a failed processing. *)
Lemma submit_admin_never_failed (w : world) (st : page) (db : database)
    (events : list event) (db2 : database) :
  submit_admin w st db = (inr events, db2) →
  Toast ProcessingFailed ∉ events.
Proof.
  unfold submit_admin. destruct (upload_fails w); [done|].
  destruct (insert_photo w db) as [db1|] eqn:Hins; [|done].
  apply insert_photo_pending in Hins as [Hnone ->].
  destruct (image_loads w); simpl; [|done].
  destruct (detected w) as [descs|]; [|done].
  set (req := Request false _). set (db1 := Database _ _ _ _).
  assert (Hstatus : status_of (serve (edge w) req db1).2 (new_photo_id w)
                    ≠ Some failed).
  { intros Hfailed%serve_never_writes_failed.
    unfold status_of in Hfailed. subst db1. simpl in Hfailed.
    rewrite lookup_insert_eq in Hfailed. discriminate Hfailed. }
  destruct (serve (edge w) req db1) as [resp db3]. simpl in Hstatus.
  assert (Hwait : wait (polls w) db3 (new_photo_id w) pending ≠ failed)
    by by apply wait_not_failed.
  destruct resp; [| |done];
    (destruct (decide (_ = failed)); [done|]);
    destruct (first_record db3 (new_photo_id w)); intros [= <- <-];
    rewrite ?elem_of_cons, elem_of_nil; naive_solver.
Qed.

End Client.

(** X20.  Without a captured photo, with a class id that trims to nothing,
    without a signed-in user or for a user whose role is not admin,
    [handleSubmit] writes nothing to the database (no photo row, no call of
    the edge function) and does not go to the history page. *)
Theorem submit_guards (trim : string → string) (w : TakeAttendance.world)
    (st : TakeAttendance.page) (db : database) :
  TakeAttendance.capturedPhoto st = false
  ∨ trim (TakeAttendance.classId st) = EmptyString
  ∨ TakeAttendance.auth_user w = None
  ∨ TakeAttendance.user_role w ≠ Some "admin" →
  (TakeAttendance.handleSubmit trim w st db).2 = db
  ∧ TakeAttendance.Navigate TakeAttendance.HistoryPage
    ∉ (TakeAttendance.handleSubmit trim w st db).1.
Proof.
  intros Hguard. unfold TakeAttendance.handleSubmit.
  destruct (TakeAttendance.capturedPhoto st); simpl.
  - destruct (decide (trim (TakeAttendance.classId st) = EmptyString)); simpl.
    + split; [done|]. rewrite list_elem_of_singleton. done.
    + destruct (TakeAttendance.auth_user w) as [user|]; simpl.
      * destruct (decide (TakeAttendance.user_role w = Some "admin")); simpl.
        -- naive_solver.
        -- split; [done|]. rewrite !elem_of_cons, elem_of_nil. naive_solver.
      * split; [done|]. rewrite !elem_of_cons, elem_of_nil. naive_solver.
  - split; [done|]. rewrite list_elem_of_singleton. done.
Qed.

Lemma submit_guards_witness :
  let w := TakeAttendance.World (Some 99%N) (Some "student") false false 7 true
             (Some [[1; 0; 0]]) healthy 40 in
  let st := TakeAttendance.Page true "CSE-A" in
  TakeAttendance.handleSubmit (fun s => s) w st scenario_db
  = ([TakeAttendance.SetUploading true;
      TakeAttendance.Toast TakeAttendance.OnlyAdmins;
      TakeAttendance.Navigate TakeAttendance.DashboardPage;
      TakeAttendance.SetUploading false], scenario_db)
  ∧ (TakeAttendance.handleSubmit (fun s => s) w st scenario_db).2 = scenario_db.
Proof.
  split; [vm_compute; reflexivity|].
  apply (submit_guards (fun s => s)
           (TakeAttendance.World (Some 99%N) (Some "student") false false 7 true
              (Some [[1; 0; 0]]) healthy 40)
           (TakeAttendance.Page true "CSE-A") scenario_db).
  right; right; right. discriminate.
Defined.

(** X21.  The toast 'Processing failed. Please try again.' is never shown:
    the photo row the page has just inserted is [pending], the edge function
    never writes [failed], so the wait loop cannot end on it -- whatever the
    outside answers and however many polls fit before the deadline. *)
Theorem processing_failed_never_shown (trim : string → string)
    (w : TakeAttendance.world) (st : TakeAttendance.page) (db : database) :
  TakeAttendance.Toast TakeAttendance.ProcessingFailed
  ∉ (TakeAttendance.handleSubmit trim w st db).1.
Proof.
  unfold TakeAttendance.handleSubmit.
  destruct (TakeAttendance.capturedPhoto st); simpl;
    [|by rewrite list_elem_of_singleton].
  destruct (decide (trim (TakeAttendance.classId st) = EmptyString)); simpl;
    [by rewrite list_elem_of_singleton|].
  destruct (TakeAttendance.auth_user w) as [user|]; simpl;
    [|rewrite !elem_of_cons, elem_of_nil; naive_solver].
  destruct (decide (TakeAttendance.user_role w = Some "admin")); simpl;
    [|rewrite !elem_of_cons, elem_of_nil; naive_solver].
  destruct (TakeAttendance.submit_admin w st db) as [[err|events] db2] eqn:Hsub;
    simpl.
  - rewrite !elem_of_cons, elem_of_nil. naive_solver.
  - pose proof (submit_admin_never_failed w st db events db2 Hsub) as Hno.
    rewrite elem_of_cons, elem_of_app, list_elem_of_singleton. naive_solver.
Qed.

(** X22.  End to end: an admin submits a photo for a class, the upload, the
    insert of the photo row and the detection succeed, and the edge function
    meets no upstream failure.  Then, however many polls fit before the
    deadline, the page announces the three counts of the reconciliation of
    the detected descriptors, as they arrive through JSON (NaN and infinite
    coordinates read as 0), with the roster of the class, goes to the history
    page, and leaves the new photo [completed] with [faces_detected] the
    number of descriptors.  (The class id is sent as typed, not trimmed.) *)
Theorem submit_reports_the_run (trim : string → string)
    (w : TakeAttendance.world) (st : TakeAttendance.page) (db : database)
    (user : N) (descs : list (list float)) :
  TakeAttendance.capturedPhoto st = true →
  trim (TakeAttendance.classId st) ≠ EmptyString →
  TakeAttendance.auth_user w = Some user →
  TakeAttendance.user_role w = Some "admin" →
  TakeAttendance.upload_fails w = false →
  TakeAttendance.insert_fails w = false →
  tbl_photos db !! TakeAttendance.new_photo_id w = None →
  Forall (fun r => r_photo_id r ≠ TakeAttendance.new_photo_id w)
    (tbl_attendance_records db) →
  TakeAttendance.image_loads w = true →
  TakeAttendance.detected w = Some descs →
  TakeAttendance.edge w = healthy →
  let students := class_roster db (TakeAttendance.classId st) in
  let att := reconcile students (faces_of db (s_id <$> students))
               (json_descriptor <$> descs) in
  (TakeAttendance.handleSubmit trim w st db).1
  = [TakeAttendance.SetUploading true;
     TakeAttendance.Toast
       (TakeAttendance.AttendanceReady (length (present_students att))
          (length (absent_students att)) (length (unknown_faces att)));
     TakeAttendance.Navigate TakeAttendance.HistoryPage;
     TakeAttendance.SetUploading false]
  ∧ tbl_photos (TakeAttendance.handleSubmit trim w st db).2
      !! TakeAttendance.new_photo_id w
    = Some (Photo completed (length descs))
  ∧ tbl_attendance_records (TakeAttendance.handleSubmit trim w st db).2
    = tbl_attendance_records db
        ++ [AttendanceRecord (TakeAttendance.new_photo_id w)
              (TakeAttendance.classId st) att].
Proof.
  intros Hphoto Hclass Huser Hrole Hup Hins Hfresh Hrecs Himg Hdet Hedge.
  cbv zeta.
  unfold TakeAttendance.handleSubmit, TakeAttendance.submit_admin,
    TakeAttendance.insert_photo.
  rewrite Hphoto, Huser, Hup, Hins, Hfresh, Himg, Hdet, Hedge.
  cbv beta iota delta [negb].
  rewrite decide_False, decide_True by done.
  set (db1 := Database _ _ (<[_ := _]> _) _).
  set (b := Body _ _ _).
  rewrite (serve_healthy (Request false (Some b)) db1 b eq_refl eq_refl).
  cbv zeta.
  change (class_roster db1 (b_classId b))
    with (class_roster db (TakeAttendance.classId st)).
  set (students := class_roster db (TakeAttendance.classId st)).
  change (faces_of db1 (s_id <$> students)) with (faces_of db (s_id <$> students)).
  change (default [] (b_descriptors b)) with (json_descriptor <$> descs).
  set (att := reconcile students (faces_of db (s_id <$> students))
                (json_descriptor <$> descs)).
  rewrite length_fmap.
  set (db2 := Database _ _ (alter _ _ _) _).
  assert (Hphoto2 : tbl_photos db2 !! TakeAttendance.new_photo_id w
                    = Some (Photo completed (length descs))).
  { subst db2 db1 b. simpl. by rewrite !lookup_alter_eq, lookup_insert_eq. }
  assert (Hwait : TakeAttendance.wait (TakeAttendance.polls w) db2
                    (TakeAttendance.new_photo_id w) pending ≠ failed).
  { apply wait_not_failed; [|done]. unfold status_of. by rewrite Hphoto2. }
  rewrite decide_False by done.
  assert (Hrec : TakeAttendance.first_record db2 (TakeAttendance.new_photo_id w)
                 = Some (AttendanceRecord (TakeAttendance.new_photo_id w)
                           (TakeAttendance.classId st) att)).
  { unfold TakeAttendance.first_record. subst db2 db1 b. simpl.
    by apply first_record_fresh. }
  rewrite Hrec. simpl. done.
Qed.

Lemma submit_reports_the_run_witness :
  let db := Database [S1; S2; S3] scenario_faces ∅ [] in
  let w := TakeAttendance.World (Some 99%N) (Some "admin") false false 7 true
             (Some [[nan; 1; 0]; [0; 0; 1]]) healthy 0 in
  let st := TakeAttendance.Page true "CSE-A" in
  json_descriptor [nan; 1; 0] = [0; 1; 0]
  ∧ (TakeAttendance.handleSubmit (fun s => s) w st db).1
    = [TakeAttendance.SetUploading true;
       TakeAttendance.Toast (TakeAttendance.AttendanceReady 1 1 1);
       TakeAttendance.Navigate TakeAttendance.HistoryPage;
       TakeAttendance.SetUploading false]
  ∧ tbl_photos (TakeAttendance.handleSubmit (fun s => s) w st db).2 !! 7%N
    = Some (Photo completed 2).
Proof.
  assert (Hclass : "CSE-A" ≠ EmptyString) by discriminate.
  assert (Hfresh : (∅ : gmap N photo) !! 7%N = None) by apply lookup_empty.
  destruct (submit_reports_the_run (fun s => s)
              (TakeAttendance.World (Some 99%N) (Some "admin") false false 7 true
                 (Some [[nan; 1; 0]; [0; 0; 1]]) healthy 0)
              (TakeAttendance.Page true "CSE-A")
              (Database [S1; S2; S3] scenario_faces ∅ []) 99%N
              [[nan; 1; 0]; [0; 0; 1]] eq_refl Hclass eq_refl eq_refl eq_refl
              eq_refl Hfresh (Forall_nil_2 _) eq_refl eq_refl eq_refl)
    as (Hevents & Hphoto & _).
  split_and!; [reflexivity|exact Hevents|exact Hphoto].
Defined.

(** X23.  When the edge function answers 500 (one of its upstream calls
    fails) the page shows the error and stays where it is; the photo row it
    inserted is left [processing] and no attendance row exists for it. *)
Theorem submit_edge_failure (trim : string → string)
    (w : TakeAttendance.world) (st : TakeAttendance.page) (db : database)
    (user : N) (descs : list (list float)) :
  TakeAttendance.capturedPhoto st = true →
  trim (TakeAttendance.classId st) ≠ EmptyString →
  TakeAttendance.auth_user w = Some user →
  TakeAttendance.user_role w = Some "admin" →
  TakeAttendance.upload_fails w = false →
  TakeAttendance.insert_fails w = false →
  tbl_photos db !! TakeAttendance.new_photo_id w = None →
  TakeAttendance.image_loads w = true →
  TakeAttendance.detected w = Some descs →
  students_fail (TakeAttendance.edge w) || faces_fail (TakeAttendance.edge w)
    || insert_fail (TakeAttendance.edge w) = true →
  (∃ e, (TakeAttendance.handleSubmit trim w st db).1
        = [TakeAttendance.SetUploading true;
           TakeAttendance.Toast
             (TakeAttendance.Thrown (TakeAttendance.ProcessError e));
           TakeAttendance.SetUploading false])
  ∧ status_of (TakeAttendance.handleSubmit trim w st db).2
      (TakeAttendance.new_photo_id w) = Some processing
  ∧ tbl_attendance_records (TakeAttendance.handleSubmit trim w st db).2
    = tbl_attendance_records db.
Proof.
  intros Hphoto Hclass Huser Hrole Hup Hins Hfresh Himg Hdet Hfail.
  unfold TakeAttendance.handleSubmit, TakeAttendance.submit_admin,
    TakeAttendance.insert_photo.
  rewrite Hphoto, Huser, Hup, Hins, Hfresh, Himg, Hdet. simpl.
  rewrite decide_False, decide_True by done.
  unfold serve, process_attendance, req_json, status_of. simpl.
  destruct (TakeAttendance.edge w) as [[|] [|] [|]]; simpl in *;
    try discriminate Hfail;
    (split_and!; [by eexists| |done]);
    by rewrite lookup_alter_eq, lookup_insert_eq.
Qed.

Lemma submit_edge_failure_witness :
  let db := Database [S1; S2; S3] scenario_faces ∅ [] in
  let w := TakeAttendance.World (Some 99%N) (Some "admin") false false 7 true
             (Some [[1; 0; 0]]) (Upstream false true false) 40 in
  let st := TakeAttendance.Page true "CSE-A" in
  (TakeAttendance.handleSubmit (fun s => s) w st db).1
  = [TakeAttendance.SetUploading true;
     TakeAttendance.Toast
       (TakeAttendance.Thrown (TakeAttendance.ProcessError FacesError));
     TakeAttendance.SetUploading false]
  ∧ status_of (TakeAttendance.handleSubmit (fun s => s) w st db).2 7%N
    = Some processing.
Proof.
  assert (Hclass : "CSE-A" ≠ EmptyString) by discriminate.
  assert (Hfresh : (∅ : gmap N photo) !! 7%N = None) by apply lookup_empty.
  destruct (submit_edge_failure (fun s => s)
              (TakeAttendance.World (Some 99%N) (Some "admin") false false 7 true
                 (Some [[1; 0; 0]]) (Upstream false true false) 40)
              (TakeAttendance.Page true "CSE-A")
              (Database [S1; S2; S3] scenario_faces ∅ []) 99%N [[1; 0; 0]]
              eq_refl Hclass eq_refl eq_refl eq_refl eq_refl Hfresh eq_refl
              eq_refl eq_refl)
    as (_ & Hstatus & _).
  split; [vm_compute; reflexivity|exact Hstatus].
Defined.
